(** * Job portal: access control, listing and statistics layer

  A shallow embedding of the request handlers of the admin backend and of
  the public backend (Express routes over Mongoose models), and the
  properties of the authorization gate, the login flow, the token
  issuer/verifier, pagination, bulk update, job application and the
  dashboard report.

  Conventions of the embedding.
  - A collection is the list of its documents in natural order; a query is a
    pure function of the collection.
  - A handler returns its HTTP outcome (and the new collection when it
    writes); a middleware either responds or passes the request on.
  - External packages (jsonwebtoken, bcryptjs, express-validator, the regex
    engine of the database) are not part of the repository: jsonwebtoken is
    modelled symbolically in [Jwt], the others are parameters of the
    sections that use them.
  - Time is the clock of the token library, in whole seconds. *)

From Stdlib Require Import ZArith List Bool Ascii String Lia Arith Permutation.
Import ListNotations.
Open Scope string_scope.
Open Scope Z_scope.

Set Implicit Arguments.

(* ================================================================= *)
(** ** JavaScript string and array helpers *)

Module Js.

(** [s.startsWith(p)] *)
Definition startsWith (s p : string) : bool := String.prefix p s.

(** [s.split(sep)] for a one-character separator. *)
Fixpoint split (sep : ascii) (s : string) : list string :=
  match s with
  | EmptyString => [EmptyString]
  | String c rest =>
      if Ascii.eqb c sep then EmptyString :: split sep rest
      else match split sep rest with
           | [] => [String c EmptyString]
           | w :: ws => String c w :: ws
           end
  end.

(** [arr.includes(x)] on an array of strings. *)
Definition includes (arr : list string) (x : string) : bool :=
  existsb (String.eqb x) arr.

(** [arr.join(sep)] *)
Definition join (sep : string) (arr : list string) : string :=
  String.concat sep arr.

(** A string is falsy exactly when it is empty. *)
Definition truthy (s : string) : bool := negb (String.eqb s "").

(** ASCII lower-casing, as the [lowercase] schema setter does it. *)
Definition lower_ascii (c : ascii) : ascii :=
  let n := nat_of_ascii c in
  if andb (Nat.leb 65 n) (Nat.leb n 90) then ascii_of_nat (n + 32) else c.

Fixpoint toLowerCase (s : string) : string :=
  match s with
  | EmptyString => EmptyString
  | String c rest => String (lower_ascii c) (toLowerCase rest)
  end.

Definition is_ws (c : ascii) : bool :=
  let n := nat_of_ascii c in
  orb (andb (Nat.leb 9 n) (Nat.leb n 13)) (Nat.eqb n 32).

Fixpoint trimStart (s : string) : string :=
  match s with
  | EmptyString => EmptyString
  | String c rest => if is_ws c then trimStart rest else s
  end.

Fixpoint rev_append (s acc : string) : string :=
  match s with
  | EmptyString => acc
  | String c rest => rev_append rest (String c acc)
  end.

Definition reverse (s : string) : string := rev_append s EmptyString.

(** [s.trim()] *)
Definition trim (s : string) : string :=
  reverse (trimStart (reverse (trimStart s))).

(** [Math.ceil(a / b)] for a count [a >= 0] and a page size [b > 0]. *)
Definition ceil_div (a b : Z) : Z :=
  if a mod b =? 0 then a / b else a / b + 1.

End Js.

(* ================================================================= *)
(** ** The token library (jsonwebtoken), modelled symbolically

  A token carries a payload and a signature.  The signature is symbolic: it
  records the key and the payload it was computed over, and it verifies
  under a secret exactly when both agree with what is presented. *)

Module Jwt.

Record Payload := mkPayload {
  id  : option string;   (* the [id] claim, when the payload has one *)
  iat : Z;               (* issued at *)
  nbf : option Z;        (* not before *)
  exp : option Z         (* expiry *)
}.

Record Signature := mkSignature {
  sig_key : string;
  sig_payload : Payload
}.

Record Token := mkToken {
  payload : Payload;
  signature : Signature
}.

(** [error.name] of what [jwt.verify] throws. *)
Inductive Error := JsonWebTokenError | NotBeforeError | TokenExpiredError.

Inductive Verified :=
| Decoded (p : Payload)
| Threw (e : Error).

Definition opt_eqb {A} (eqb : A -> A -> bool) (x y : option A) : bool :=
  match x, y with
  | None, None => true
  | Some a, Some b => eqb a b
  | _, _ => false
  end.

Definition payload_eqb (p q : Payload) : bool :=
  opt_eqb String.eqb (id p) (id q) && (iat p =? iat q)
  && opt_eqb Z.eqb (nbf p) (nbf q) && opt_eqb Z.eqb (exp p) (exp q).

Definition signature_valid (secret : string) (t : Token) : bool :=
  String.eqb (sig_key (signature t)) secret
  && payload_eqb (sig_payload (signature t)) (payload t).

(** [jwt.sign({ id }, secret, { expiresIn })] at clock reading [now]. *)
Definition sign (subject : string) (secret : string) (expiresIn : Z) (now : Z)
  : Token :=
  let p := mkPayload (Some subject) now None (Some (now + expiresIn)) in
  mkToken p (mkSignature secret p).

(** [jwt.verify(token, secret)] at clock reading [now]; [None] is a string
    that does not decode to a token. *)
Definition verify (t : option Token) (secret : string) (now : Z) : Verified :=
  match t with
  | None => Threw JsonWebTokenError
  | Some t =>
      if negb (signature_valid secret t) then Threw JsonWebTokenError
      else
        match nbf (payload t) with
        | Some n => if now <? n then Threw NotBeforeError
                    else match exp (payload t) with
                         | Some e => if e <=? now then Threw TokenExpiredError
                                     else Decoded (payload t)
                         | None => Decoded (payload t)
                         end
        | None => match exp (payload t) with
                  | Some e => if e <=? now then Threw TokenExpiredError
                              else Decoded (payload t)
                  | None => Decoded (payload t)
                  end
        end
  end.

End Jwt.

(* ================================================================= *)
(** ** Configuration (config/config.js) *)

Record Config := mkConfig {
  JWT_SECRET : string;
  JWT_EXPIRE : Z          (* the [expiresIn] span, in seconds *)
}.

(** The defaults: the fallback secret and ['7d']. *)
Definition default_config : Config :=
  mkConfig "admin_super_secret_jwt_key_change_this_in_production" 604800.

(** utils/generateToken.js *)
Definition generateToken (config : Config) (now : Z) (id : string) : Jwt.Token :=
  Jwt.sign id (JWT_SECRET config) (JWT_EXPIRE config) now.

(* ================================================================= *)
(** ** The Admin model (models/Admin.js) *)

Inductive Role := super_admin | admin | moderator.

Definition role_eqb (r s : Role) : bool :=
  match r, s with
  | super_admin, super_admin | admin, admin | moderator, moderator => true
  | _, _ => false
  end.


(** A loaded Admin document.  [password] is the stored hash; it is [None] in
    a document loaded with [select('-password')].  The schema does not mark
    the field [select: false], so a plain [findById] loads it. *)
Record Admin := mkAdmin {
  _id : string;
  firstName : string;
  lastName : string;
  email : string;
  password : option string;
  role : Role;
  isActive : bool;
  permissions : list string;
  lastLogin : option Z;
  profileImage : option string;
  phone : option string;
  department : option string
}.

Definition set_password (pw : option string) (a : Admin) : Admin :=
  mkAdmin (_id a) (firstName a) (lastName a) (email a) pw (role a)
          (isActive a) (permissions a) (lastLogin a) (profileImage a)
          (phone a) (department a).

Definition set_lastLogin (t : option Z) (a : Admin) : Admin :=
  mkAdmin (_id a) (firstName a) (lastName a) (email a) (password a) (role a)
          (isActive a) (permissions a) t (profileImage a)
          (phone a) (department a).

(** The [fullName] virtual. *)
Definition fullName (a : Admin) : string :=
  firstName a ++ " " ++ lastName a.

(** [adminSchema.methods.hasPermission] *)
Definition hasPermission (a : Admin) (permission : string) : bool :=
  Js.includes (permissions a) permission || role_eqb (role a) super_admin.

(** The admins collection. *)
Definition Admins := list Admin.

(** [Admin.findById(id)] *)
Definition findById (db : Admins) (id : string) : option Admin :=
  find (fun a => String.eqb (_id a) id) db.

(** [.select('-password')] *)
Definition select_minus_password (a : Admin) : Admin := set_password None a.

(** The [lowercase] and [trim] setters of the [email] path; Mongoose runs
    them on stored values and on filter values alike. *)
Definition email_setter (e : string) : string := Js.toLowerCase (Js.trim e).

(** [Admin.findOne({ email })] *)
Definition findOne_email (db : Admins) (e : string) : option Admin :=
  find (fun a => String.eqb (email a) (email_setter e)) db.

(** Replace the stored document that has the id of [a] (what [a.save()] does
    to the collection). *)
Fixpoint save (db : Admins) (a : Admin) : Admins :=
  match db with
  | [] => []
  | b :: rest => if String.eqb (_id b) (_id a) then a :: rest
                 else b :: save rest a
  end.

(* ================================================================= *)
(** ** The authorization middleware (middleware/auth.js) *)

Record Request := mkRequest {
  authorization : option string;   (* req.headers.authorization *)
  req_admin : option Admin         (* req.admin *)
}.

Definition attach (req : Request) (a : Admin) : Request :=
  mkRequest (authorization req) (Some a).

(** A middleware either responds with [{ success: false, message }] under a
    status, or calls [next()] with the request as it then is. *)
Inductive Outcome :=
| Respond (status : Z) (message : string)
| Next (req : Request).

(** The header test and the token extraction that [protect] and
    [optionalAuth] both start with:
    [authorization && authorization.startsWith('Bearer')], then
    [authorization.split(' ')[1]]. *)
Inductive Bearer :=
| NoBearer                    (* header absent or not a Bearer header *)
| NoToken                     (* Bearer header whose second word is missing or empty *)
| BearerToken (token : string).

Definition bearer (req : Request) : Bearer :=
  match authorization req with
  | None => NoBearer
  | Some h =>
      if Js.truthy h && Js.startsWith h "Bearer" then
        match nth_error (Js.split " " h) 1 with
        | None => NoToken
        | Some token => if Js.truthy token then BearerToken token else NoToken
        end
      else NoBearer
  end.

Section Middleware.

(** The compact serialization is the library's: [decode] reads a token
    string, [None] when it is not one. *)
Variable decode : string -> option Jwt.Token.
Variable config : Config.

(** [protect], at clock reading [now] over the admins collection [db]. *)
Definition protect (db : Admins) (now : Z) (req : Request) : Outcome :=
  match bearer req with
  | BearerToken token =>
      match Jwt.verify (decode token) (JWT_SECRET config) now with
      | Jwt.Decoded decoded =>
          match Jwt.id decoded with
          | None => Respond 401 "Invalid token format"
          | Some id =>
              if negb (Js.truthy id) then Respond 401 "Invalid token format"
              else
                match option_map select_minus_password (findById db id) with
                | None => Respond 401 "Admin not found"
                | Some a =>
                    if negb (isActive a)
                    then Respond 401 "Admin account is deactivated"
                    else Next (attach req a)
                end
          end
      | Jwt.Threw Jwt.JsonWebTokenError => Respond 401 "Invalid token"
      | Jwt.Threw Jwt.TokenExpiredError => Respond 401 "Token has expired"
      | Jwt.Threw _ => Respond 500 "Authentication failed"
      end
  | NoToken => Respond 401 "Access token is required"
  | NoBearer => Respond 401 "Authorization header with Bearer token is required"
  end.


(** [checkPermission(permission)] *)
Definition checkPermission (permission : string) (req : Request) : Outcome :=
  match req_admin req with
  | None => Respond 401 "Authentication required"
  | Some a =>
      if negb (hasPermission a permission)
      then Respond 403 ("Permission " ++ permission
                        ++ " is required to access this route")
      else Next req
  end.

(** [optionalAuth]: every failure inside the [try] lands in the [catch],
    which calls [next()] as well.  A payload without [id] makes
    [findById(undefined)], which finds nothing. *)
Definition optionalAuth (db : Admins) (now : Z) (req : Request) : Outcome :=
  match bearer req with
  | BearerToken token =>
      match Jwt.verify (decode token) (JWT_SECRET config) now with
      | Jwt.Decoded decoded =>
          match Jwt.id decoded with
          | None => Next req
          | Some id =>
              match option_map select_minus_password (findById db id) with
              | Some a => if isActive a then Next (attach req a) else Next req
              | None => Next req
              end
          end
      | Jwt.Threw _ => Next req
      end
  | _ => Next req
  end.

End Middleware.

(* ================================================================= *)
(** ** The auth routes (routes/auth.js) *)

(** The [admin] object of the login and refresh responses: an explicit list
    of fields. *)
Record AdminSummary := mkAdminSummary {
  s_id : string;
  s_firstName : string;
  s_lastName : string;
  s_email : string;
  s_role : Role;
  s_permissions : list string;
  s_profileImage : option string;
  s_fullName : string
}.

Definition summary (a : Admin) : AdminSummary :=
  mkAdminSummary (_id a) (firstName a) (lastName a) (email a) (role a)
                 (permissions a) (profileImage a) (fullName a).

Inductive AuthResponse :=
| ValidationErrors (errors : list string)                  (* 400 *)
| Failure (status : Z) (message : string)
| LoginSuccess (token : Jwt.Token) (admin : AdminSummary)  (* 200 *)
| ProfileData (data : Admin)                               (* 200, data: req.admin *)
| ProfileUpdated (data : Admin).                           (* 200, data: updatedAdmin *)

Record LoginBody := mkLoginBody {
  lb_email : option string;
  lb_password : option string
}.

Record ProfileBody := mkProfileBody {
  pb_firstName : option string;
  pb_lastName : option string;
  pb_email : option string;
  pb_phone : option string;
  pb_department : option string;
  pb_profileImage : option string
}.

Definition str_length (s : string) : Z := Z.of_nat (String.length s).

(** [body(f).isLength({ min, max })] *)
Definition isLength (lo hi : Z) (s : string) : bool :=
  (lo <=? str_length s) && (str_length s <=? hi).

(** One validator of a chain: the message when the field fails. *)
Definition check (ok : bool) (msg : string) : list string :=
  if ok then [] else [msg].

(** [.optional()]: an absent field is not validated. *)
Definition optional (v : option string) (ok : string -> bool) (msg : string)
  : list string :=
  match v with
  | None => []
  | Some s => check (ok s) msg
  end.

(** A required field: an absent one fails its validator. *)
Definition required (v : option string) (ok : string -> bool) (msg : string)
  : list string :=
  match v with
  | None => [msg]
  | Some s => check (ok s) msg
  end.

(** [if (v) doc.field = v] *)
Definition assign_if (v : option string) (old : string) : string :=
  match v with
  | Some s => if Js.truthy s then s else old
  | None => old
  end.

Definition assign_opt_if (v : option string) (old : option string)
  : option string :=
  match v with
  | Some s => if Js.truthy s then Some s else old
  | None => old
  end.

Section AuthRoutes.

Variable isEmail : string -> bool.            (* express-validator *)
Variable isMobilePhone : string -> bool.      (* express-validator *)
Variable bcrypt_compare : string -> string -> bool.  (* bcrypt.compare(entered, hash) *)
Variable decode : string -> option Jwt.Token.
Variable config : Config.

Definition login_validation (b : LoginBody) : list string :=
  required (lb_email b) isEmail "Please enter a valid email"
  ++ required (lb_password b) (fun p => 6 <=? str_length p)
       "Password must be at least 6 characters".

(** [POST /login] at clock reading [now]: the response and the collection
    afterwards. *)
Definition login (db : Admins) (now : Z) (b : LoginBody)
  : AuthResponse * Admins :=
  match login_validation b with
  | (_ :: _) as errors => (ValidationErrors errors, db)
  | [] =>
      match lb_email b, lb_password b with
      | Some e, Some entered =>
          match findOne_email db e with
          | None => (Failure 401 "Invalid credentials", db)
          | Some a =>
              if negb (isActive a)
              then (Failure 401 "Admin account is deactivated", db)
              else
                match password a with
                | None => (Failure 500 "Server error", db)
                | Some hash =>
                    if negb (bcrypt_compare entered hash)
                    then (Failure 401 "Invalid credentials", db)
                    else
                      let a' := set_lastLogin (Some now) a in
                      (LoginSuccess (generateToken config now (_id a'))
                                    (summary a'),
                       save db a')
                end
          end
      | _, _ => (Failure 500 "Server error", db)
      end
  end.

(** [GET /profile]: [protect], then [data: req.admin]. *)
Definition get_profile (db : Admins) (now : Z) (req : Request) : AuthResponse :=
  match protect decode config db now req with
  | Respond status message => Failure status message
  | Next req' =>
      match req_admin req' with
      | Some a => ProfileData a
      | None => Failure 500 "Server error"
      end
  end.

Definition profile_validation (b : ProfileBody) : list string :=
  optional (pb_firstName b) (isLength 2 50)
    "First name must be between 2 and 50 characters"
  ++ optional (pb_lastName b) (isLength 2 50)
       "Last name must be between 2 and 50 characters"
  ++ optional (pb_email b) isEmail "Please enter a valid email"
  ++ optional (pb_phone b) isMobilePhone "Please enter a valid phone number"
  ++ optional (pb_department b) (isLength 2 50)
       "Department must be between 2 and 50 characters".

(** The fields the handler assigns; the [email] path goes through its
    setter. *)
Definition apply_profile (b : ProfileBody) (a : Admin) : Admin :=
  mkAdmin (_id a)
          (assign_if (pb_firstName b) (firstName a))
          (assign_if (pb_lastName b) (lastName a))
          (match pb_email b with
           | Some e => if Js.truthy e then email_setter e else email a
           | None => email a
           end)
          (password a) (role a) (isActive a) (permissions a) (lastLogin a)
          (assign_opt_if (pb_profileImage b) (profileImage a))
          (assign_opt_if (pb_phone b) (phone a))
          (assign_opt_if (pb_department b) (department a)).

(** The unique index on [email]: another document already holds it. *)
Definition email_taken (db : Admins) (a : Admin) : bool :=
  existsb (fun b => String.eqb (email b) (email a)
                    && negb (String.eqb (_id b) (_id a))) db.

(** [PUT /profile]: [protect], the validators, then the handler, which loads
    the document again with a plain [findById], saves it and answers with
    [data: updatedAdmin]. *)
Definition put_profile (db : Admins) (now : Z) (req : Request) (b : ProfileBody)
  : AuthResponse * Admins :=
  match protect decode config db now req with
  | Respond status message => (Failure status message, db)
  | Next req' =>
      match profile_validation b with
      | (_ :: _) as errors => (ValidationErrors errors, db)
      | [] =>
          match req_admin req' with
          | None => (Failure 500 "Server error", db)
          | Some me =>
              match findById db (_id me) with
              | None => (Failure 500 "Server error", db)
              | Some a =>
                  let updatedAdmin := apply_profile b a in
                  if email_taken db updatedAdmin
                  then (Failure 500 "Server error", db)
                  else (ProfileUpdated updatedAdmin, save db updatedAdmin)
              end
          end
      end
  end.

End AuthRoutes.

(* ================================================================= *)
(** ** The category routes (admin routes/categories.js) *)

Record Category := mkCategory {
  cat_id : string;
  name : string;
  description : string;
  cat_isActive : bool;
  isFeatured : bool;
  sortOrder : Z;
  parentCategory : option string;
  jobCount : Z;
  createdAt : Z
}.

Definition Categories := list Category.

Record Pagination := mkPagination {
  currentPage : Z;
  totalPages : Z;
  totalItems : Z;
  itemsPerPage : Z;
  hasNextPage : bool;
  hasPrevPage : bool
}.

(** A JSON scalar of a request body. *)
Inductive Json :=
| JNull
| JBool (b : bool)
| JNum (n : Z)
| JStr (s : string).

Inductive CategoryResponse :=
| CatValidationErrors (errors : list string)                 (* 400 *)
| CatFailure (status : Z) (message : string)
| CatList (data : list Category) (pagination : Pagination)   (* 200 *)
| CatBulkUpdated (matchedCount modifiedCount : Z).           (* 200 *)

(** The query string of [GET /]: [page] and [limit] as the integers they
    spell, the other parameters as sent. *)
Record ListQuery := mkListQuery {
  q_page : option Z;
  q_limit : option Z;
  q_search : option string;
  q_status : option string;
  q_featured : option string;
  q_parent : option string;
  q_sortBy : option string;
  q_sortOrder : option string
}.

Definition optionalZ (v : option Z) (ok : Z -> bool) (msg : string)
  : list string :=
  match v with
  | None => []
  | Some n => check (ok n) msg
  end.

Definition isIn (allowed : list string) (s : string) : bool :=
  Js.includes allowed s.

Definition paging_validation (q : ListQuery) : list string :=
  optionalZ (q_page q) (fun p => 1 <=? p) "Page must be a positive integer"
  ++ optionalZ (q_limit q) (fun l => (1 <=? l) && (l <=? 100))
       "Limit must be between 1 and 100".

Definition filter_validation (q : ListQuery) : list string :=
  optional (q_status q) (isIn ["active"; "inactive"]) "Invalid status"
  ++ optional (q_featured q) (isIn ["true"; "false"; "1"; "0"])
       "Featured must be a boolean"
  ++ optional (q_sortBy q) (isIn ["createdAt"; "name"; "sortOrder"; "jobCount"])
       "Invalid sort field"
  ++ optional (q_sortOrder q) (isIn ["asc"; "desc"])
       "Sort order must be asc or desc".

Definition list_validation (q : ListQuery) : list string :=
  paging_validation q ++ filter_validation q.

Definition or_default {A} (v : option A) (d : A) : A :=
  match v with
  | Some x => x
  | None => d
  end.

(** Ascending order of two documents on a sort field. *)
Definition field_leb (sortBy : string) (c d : Category) : bool :=
  if String.eqb sortBy "name" then String.leb (name c) (name d)
  else if String.eqb sortBy "jobCount" then jobCount c <=? jobCount d
  else if String.eqb sortBy "createdAt" then createdAt c <=? createdAt d
  else sortOrder c <=? sortOrder d.

Fixpoint insert_sorted (le : Category -> Category -> bool) (c : Category)
  (l : list Category) : list Category :=
  match l with
  | [] => [c]
  | d :: rest => if le c d then c :: l else d :: insert_sorted le c rest
  end.

(** [.sort(sort)] *)
Fixpoint sort_by (le : Category -> Category -> bool) (l : list Category)
  : list Category :=
  match l with
  | [] => []
  | c :: rest => insert_sorted le c (sort_by le rest)
  end.

Section CategoryRoutes.

(** [{ $regex: pattern, $options: 'i' }] on a string field. *)
Variable regex_i : string -> string -> bool.
(** Mongoose's casts of an update value to the type of its path; [None] is
    a CastError. *)
Variable castBoolean : Json -> option bool.
Variable castNumber : Json -> option Z.

(** The filter object the handler builds, as the predicate it selects. *)
Definition list_filter (q : ListQuery) (c : Category) : bool :=
  let search := or_default (q_search q) "" in
  let status := or_default (q_status q) "" in
  let parent := or_default (q_parent q) "" in
  (if Js.truthy search
   then regex_i search (name c) || regex_i search (description c)
   else true)
  && (if Js.truthy status
      then Bool.eqb (cat_isActive c) (String.eqb status "active")
      else true)
  && (match q_featured q with
      | Some featured =>
          if Js.truthy featured
          then Bool.eqb (isFeatured c) (String.eqb featured "true")
          else true
      | None => true
      end)
  && (if String.eqb parent "none"
      then match parentCategory c with None => true | Some _ => false end
      else if Js.truthy parent
           then match parentCategory c with
                | Some p => String.eqb p parent
                | None => false
                end
           else true).

Definition list_order (q : ListQuery) (c d : Category) : bool :=
  let sortBy := or_default (q_sortBy q) "sortOrder" in
  if String.eqb (or_default (q_sortOrder q) "asc") "asc"
  then field_leb sortBy c d
  else field_leb sortBy d c.

(** [countDocuments(filter)] *)
Definition countDocuments (db : Categories) (f : Category -> bool) : Z :=
  Z.of_nat (List.length (filter f db)).

(** [GET /] past [protect] and [checkPermission]: validation, then the page
    and its metadata. *)
Definition list_categories (db : Categories) (q : ListQuery) : CategoryResponse :=
  match list_validation q with
  | (_ :: _) as errors => CatValidationErrors errors
  | [] =>
      let page := or_default (q_page q) 1 in
      let limit := or_default (q_limit q) 10 in
      let skip := (page - 1) * limit in
      let categories :=
        firstn (Z.to_nat limit)
          (skipn (Z.to_nat skip) (sort_by (list_order q) (filter (list_filter q) db))) in
      let total := countDocuments db (list_filter q) in
      let totalPages := Js.ceil_div total limit in
      CatList categories
        (mkPagination page totalPages total limit
           (page <? totalPages) (1 <? page))
  end.

(** The body of [PUT /bulk/update]: [None] for a field that is absent or
    not of the shape its validator asks (an array, an object).  [updates]
    lists the object's keys in [Object.keys] order. *)
Record BulkBody := mkBulkBody {
  categoryIds : option (list string);
  updates : option (list (string * Json))
}.

Definition bulk_validation (b : BulkBody) : list string :=
  check (match categoryIds b with
         | Some (_ :: _) => true
         | _ => false
         end) "Category IDs must be an array with at least one ID"
  ++ check (match updates b with Some _ => true | None => false end)
       "Updates must be an object".

Definition allowedFields : list string := ["isActive"; "isFeatured"; "sortOrder"].

Definition invalidFields (updates : list (string * Json)) : list string :=
  filter (fun field => negb (Js.includes allowedFields field)) (map fst updates).

(** [$set] of one path on one document, the value cast to the path's type;
    a path outside the schema is dropped. *)
Definition set_field (c : Category) (kv : string * Json) : option Category :=
  let (k, v) := kv in
  if String.eqb k "isActive" then
    option_map (fun b => mkCategory (cat_id c) (name c) (description c) b
                           (isFeatured c) (sortOrder c) (parentCategory c)
                           (jobCount c) (createdAt c)) (castBoolean v)
  else if String.eqb k "isFeatured" then
    option_map (fun b => mkCategory (cat_id c) (name c) (description c)
                           (cat_isActive c) b (sortOrder c) (parentCategory c)
                           (jobCount c) (createdAt c)) (castBoolean v)
  else if String.eqb k "sortOrder" then
    option_map (fun n => mkCategory (cat_id c) (name c) (description c)
                           (cat_isActive c) (isFeatured c) n (parentCategory c)
                           (jobCount c) (createdAt c)) (castNumber v)
  else Some c.

Fixpoint set_fields (c : Category) (ups : list (string * Json)) : option Category :=
  match ups with
  | [] => Some c
  | kv :: rest =>
      match set_field c kv with
      | Some c' => set_fields c' rest
      | None => None
      end
  end.

Definition category_eqb (c d : Category) : bool :=
  String.eqb (cat_id c) (cat_id d) && String.eqb (name c) (name d)
  && String.eqb (description c) (description d)
  && Bool.eqb (cat_isActive c) (cat_isActive d)
  && Bool.eqb (isFeatured c) (isFeatured d)
  && (sortOrder c =? sortOrder d)
  && Jwt.opt_eqb String.eqb (parentCategory c) (parentCategory d)
  && (jobCount c =? jobCount d) && (createdAt c =? createdAt d).

(** [Category.updateMany({ _id: { $in: ids } }, { $set: updates })]: the
    collection afterwards with [matchedCount] and [modifiedCount]; [None]
    when a value does not cast. *)
Fixpoint updateMany (db : Categories) (ids : list string)
  (ups : list (string * Json)) : option (Categories * Z * Z) :=
  match db with
  | [] => Some ([], 0, 0)
  | c :: rest =>
      match updateMany rest ids ups with
      | None => None
      | Some (rest', matched, modified) =>
          if Js.includes ids (cat_id c) then
            match set_fields c ups with
            | None => None
            | Some c' =>
                Some (c' :: rest', matched + 1,
                      if category_eqb c c' then modified else modified + 1)
            end
          else Some (c :: rest', matched, modified)
      end
  end.

(** [PUT /bulk/update] past [protect] and [checkPermission]. *)
Definition bulk_update (db : Categories) (b : BulkBody)
  : CategoryResponse * Categories :=
  match bulk_validation b with
  | (_ :: _) as errors => (CatValidationErrors errors, db)
  | [] =>
      match categoryIds b, updates b with
      | Some ids, Some ups =>
          let invalid := invalidFields ups in
          if 0 <? Z.of_nat (List.length invalid)
          then (CatFailure 400 ("Invalid fields: " ++ Js.join ", " invalid), db)
          else
            match updateMany db ids ups with
            | None => (CatFailure 500 "Failed to bulk update categories", db)
            | Some (db', matched, modified) =>
                (CatBulkUpdated matched modified, db')
            end
      | _, _ => (CatFailure 500 "Failed to bulk update categories", db)
      end
  end.

End CategoryRoutes.

(* ================================================================= *)
(** ** Applying for a job (public backend, models/Application.js and
       routes/applications.js) *)

Module Apply.

Record Application := mkApplication {
  app_id : string;
  job : string;
  applicant : string;
  company : string;
  status : string;
  coverLetter : string;
  resume : string;
  expectedSalary : Z;
  availability : string
}.

Record Job := mkJob {
  job_id : string;
  job_company : string;
  job_isActive : bool;
  applicationDeadline : option Z;
  applications : list string
}.

Record Db := mkDb {
  jobs : list Job;
  apps : list Application
}.

(** The key of the unique index [{ job: 1, applicant: 1 }]. *)
Definition index_key (a : Application) : string * string :=
  (job a, applicant a).

Definition same_key (j u : string) (a : Application) : bool :=
  String.eqb (job a) j && String.eqb (applicant a) u.

(** [Application.findOne({ job, applicant })] *)
Definition findOne (db : Db) (j u : string) : option Application :=
  find (same_key j u) (apps db).

(** [Job.findById(id)] *)
Definition findJob (db : Db) (id : string) : option Job :=
  find (fun jb => String.eqb (job_id jb) id) (jobs db).

(** What the storage layer answers to an insert. *)
Inductive Inserted :=
| Created (db : Db)
| DuplicateKey.          (* error code 11000 *)

(** [Application.create(doc)]: the unique index refuses a second document
    with the key of an existing one. *)
Definition create (db : Db) (a : Application) : Inserted :=
  if existsb (same_key (job a) (applicant a)) (apps db)
  then DuplicateKey
  else Created (mkDb (jobs db) (apps db ++ [a])).

(** [job.applications.push(id); job.save()] *)
Definition push_application (db : Db) (jid id : string) : Db :=
  mkDb (map (fun jb =>
               if String.eqb (job_id jb) jid
               then mkJob (job_id jb) (job_company jb) (job_isActive jb)
                          (applicationDeadline jb) (applications jb ++ [id])
               else jb) (jobs db))
       (apps db).

Record Body := mkBody {
  b_job : option string;
  b_coverLetter : option string;
  b_resume : option string;
  b_expectedSalary : option Z;
  b_availability : option string
}.

Inductive Response :=
| ValidationErrors (errors : list string)          (* 400 *)
| Failure (status : Z) (message : string)
| Submitted (data : Application).                  (* 201 *)

Section Route.

Variable isMongoId : string -> bool.       (* express-validator *)

Definition validation (b : Body) : list string :=
  required (b_job b) isMongoId "Valid job ID is required"
  ++ required (b_coverLetter b) (fun s => 100 <=? str_length s)
       "Cover letter must be at least 100 characters"
  ++ required (b_resume b) Js.truthy "Resume is required"
  ++ check (match b_expectedSalary b with
            | Some n => 0 <=? n
            | None => false
            end) "Expected salary must be a positive number"
  ++ required (b_availability b)
       (isIn ["immediately"; "2-weeks"; "1-month"; "3-months"; "negotiable"])
       "Invalid availability".

(** The handler up to and including its own look-up of an existing
    application: either it has responded, or it goes on to create. *)
Inductive Checked :=
| Responded (r : Response)
| Proceed (jb : Job) (doc : Application).

(** The reads of the handler, against the collection as it is when they
    run; [oid] is the id the new document would get. *)
Definition checks (db : Db) (now : Z) (user oid : string) (b : Body) : Checked :=
  match validation b with
  | (_ :: _) as errors => Responded (ValidationErrors errors)
  | [] =>
      match b_job b, b_coverLetter b, b_resume b, b_expectedSalary b,
            b_availability b with
      | Some jobId, Some cl, Some rs, Some sal, Some av =>
          match findJob db jobId with
          | None => Responded (Failure 404 "Job not found")
          | Some jb =>
              if negb (job_isActive jb) then
                Responded (Failure 400
                  "This job is no longer accepting applications")
              else if match applicationDeadline jb with
                      | Some d => d <? now
                      | None => false
                      end then
                Responded (Failure 400 "Application deadline has passed")
              else
                match findOne db jobId user with
                | Some _ =>
                    Responded (Failure 400
                      "You have already applied for this job")
                | None =>
                    Proceed jb (mkApplication oid jobId user (job_company jb)
                                  "pending" cl rs sal av)
                end
          end
      | _, _, _, _, _ => Responded (Failure 500 "Server error")
      end
  end.

(** The write of the handler, against the collection as it is when the
    insert reaches it; an insert that throws lands in the [catch]. *)
Definition submit (db : Db) (jb : Job) (doc : Application) : Response * Db :=
  match create db doc with
  | DuplicateKey => (Failure 500 "Server error", db)
  | Created db' =>
      (Submitted doc, push_application db' (job_id jb) (app_id doc))
  end.

(** One request served with no other request in between. *)
Definition apply_for_job (db : Db) (now : Z) (user oid : string) (b : Body)
  : Response * Db :=
  match checks db now user oid b with
  | Responded r => (r, db)
  | Proceed jb doc => submit db jb doc
  end.

(** Two requests whose reads both run before either write: the handler
    awaits between its look-up and its insert, so the event loop may serve
    them in this order. *)
Definition apply_twice_interleaved (db : Db) (now : Z) (user oid1 oid2 : string)
  (b : Body) : (Response * Response) * Db :=
  match checks db now user oid1 b, checks db now user oid2 b with
  | Proceed jb1 doc1, Proceed jb2 doc2 =>
      let (r1, db1) := submit db jb1 doc1 in
      let (r2, db2) := submit db1 jb2 doc2 in
      ((r1, r2), db2)
  | Responded r1, Responded r2 => ((r1, r2), db)
  | Responded r1, Proceed jb2 doc2 =>
      let (r2, db2) := submit db jb2 doc2 in ((r1, r2), db2)
  | Proceed jb1 doc1, Responded r2 =>
      let (r1, db1) := submit db jb1 doc1 in ((r1, r2), db1)
  end.

End Route.

End Apply.

(* ================================================================= *)
(** ** The dashboard statistics report (admin routes/dashboard.js) *)

Module Dashboard.

(** The count queries of the report, by the name of the field each fills. *)
Inductive CountQuery :=
| totalUsers | totalJobs | totalCompanies | totalApplications
| totalCategories | totalFAQs | totalContent
| activeUsers | activeJobs | activeCompanies | activeCategories
| activeFAQs | publishedContent
| monthlyUsers | monthlyJobs | monthlyApplications | monthlyCompanies.

Inductive RecentQuery := recentUsers | recentJobs | recentApplications.

Inductive GroupQuery :=
| jobCategories | userRoles | applicationStatus
| companyIndustries | faqCategories | contentTypes.

Inductive Query :=
| QCount (q : CountQuery)
| QRecent (q : RecentQuery)
| QGroup (q : GroupQuery).

(** The database as the handler meets it: each query settles with its
    result, or rejects ([None]). *)
Record Database (Doc : Type) := mkDatabase {
  count : CountQuery -> option Z;
  recent : RecentQuery -> option (list Doc);
  group : GroupQuery -> option (list (string * Z))
}.

(** What the handler does to its queries, in order. *)
Inductive Event :=
| Dispatch (q : Query)
| Await (qs : list Query).

(** Handler code: a value or a thrown error, and the events so far. *)
Definition M (A : Type) : Type := option A * list Event.

Definition ret {A} (a : A) : M A := (Some a, []).

Definition bind {A B} (m : M A) (k : A -> M B) : M B :=
  match m with
  | (Some a, tr) => let (b, tr') := k a in (b, (tr ++ tr')%list)
  | (None, tr) => (None, tr)
  end.

Notation "x <- m ;; k" := (bind m (fun x => k))
  (at level 61, m at next level, right associativity).

(** A promise in flight: the query it belongs to and how it will settle. *)
Record Promise (A : Type) := mkPromise {
  of_query : Query;
  settles : option A
}.

(** Executing a query dispatches it. *)
Definition dispatch {A} (q : Query) (result : option A) : M (Promise A) :=
  (Some (mkPromise q result), [Dispatch q]).

(** [promise.catch(() => fallback)] *)
Definition catch {A} (fallback : A) (p : Promise A) : Promise A :=
  mkPromise (of_query p)
            (Some (match settles p with Some v => v | None => fallback end)).

Fixpoint all_settled {A} (ps : list (Promise A)) : option (list A) :=
  match ps with
  | [] => Some []
  | p :: rest =>
      match settles p, all_settled rest with
      | Some v, Some vs => Some (v :: vs)
      | _, _ => None
      end
  end.

(** [await Promise.all(promises)]: throws when one of them rejects. *)
Definition await_all {A} (ps : list (Promise A)) : M (list A) :=
  (all_settled ps, [Await (map (@of_query A) ps)]).

(** [await promise] *)
Definition await {A} (p : Promise A) : M A :=
  (settles p, [Await [of_query p]]).

(** Dispatch a batch left to right, as the array literal evaluates. *)
Fixpoint batch {A} (qs : list (M (Promise A))) : M (list (Promise A)) :=
  match qs with
  | [] => ret []
  | q :: rest => p <- q ;; ps <- batch rest ;; ret (p :: ps)
  end.

Record Report (Doc : Type) := mkReport {
  overview_totalUsers : Z;
  overview_totalJobs : Z;
  overview_totalCompanies : Z;
  overview_totalApplications : Z;
  overview_totalCategories : Z;
  overview_totalFAQs : Z;
  overview_totalContent : Z;
  active_users : Z;
  active_jobs : Z;
  active_companies : Z;
  active_categories : Z;
  active_faqs : Z;
  active_content : Z;
  monthly_users : Z;
  monthly_jobs : Z;
  monthly_applications : Z;
  monthly_companies : Z;
  recent_users : list Doc;
  recent_jobs : list Doc;
  recent_applications : list Doc;
  analytics_jobCategories : list (string * Z);
  analytics_userRoles : list (string * Z);
  analytics_applicationStatus : list (string * Z);
  analytics_companyIndustries : list (string * Z);
  analytics_faqCategories : list (string * Z);
  analytics_contentTypes : list (string * Z)
}.

Inductive Response (Doc : Type) :=
| Stats (data : Report Doc)                      (* 200, success: true *)
| Failure (status : Z) (message : string).

Section Route.

Variable Doc : Type.
Variable db : Database Doc.

Definition countDocuments (q : CountQuery) : M (Promise Z) :=
  p <- dispatch (QCount q) (count db q) ;; ret (catch 0 p).

Definition findRecent (q : RecentQuery) : M (Promise (list Doc)) :=
  p <- dispatch (QRecent q) (recent db q) ;; ret (catch [] p).

Definition aggregate (q : GroupQuery) : M (Promise (list (string * Z))) :=
  p <- dispatch (QGroup q) (group db q) ;; ret (catch [] p).

(** An array destructuring that does not find its elements throws. *)
Definition throw {A} : M A := (None, []).

(** The body of the [try] of [GET /stats]. *)
Definition stats_body : M (Report Doc) :=
  ps1 <- batch [countDocuments totalUsers; countDocuments totalJobs;
                countDocuments totalCompanies; countDocuments totalApplications;
                countDocuments totalCategories; countDocuments totalFAQs;
                countDocuments totalContent] ;;
  vs1 <- await_all ps1 ;;
  ps2 <- batch [countDocuments activeUsers; countDocuments activeJobs;
                countDocuments activeCompanies; countDocuments activeCategories;
                countDocuments activeFAQs; countDocuments publishedContent] ;;
  vs2 <- await_all ps2 ;;
  ps3 <- batch [findRecent recentUsers; findRecent recentJobs;
                findRecent recentApplications] ;;
  vs3 <- await_all ps3 ;;
  ps4 <- batch [countDocuments monthlyUsers; countDocuments monthlyJobs;
                countDocuments monthlyApplications;
                countDocuments monthlyCompanies] ;;
  vs4 <- await_all ps4 ;;
  g1 <- (p <- aggregate jobCategories ;; await p) ;;
  g2 <- (p <- aggregate userRoles ;; await p) ;;
  g3 <- (p <- aggregate applicationStatus ;; await p) ;;
  g4 <- (p <- aggregate companyIndustries ;; await p) ;;
  g5 <- (p <- aggregate faqCategories ;; await p) ;;
  g6 <- (p <- aggregate contentTypes ;; await p) ;;
  match vs1, vs2, vs3, vs4 with
  | [tU; tJ; tC; tA; tCat; tF; tCon], [aU; aJ; aC; aCat; aF; pCon],
    [rU; rJ; rA], [mU; mJ; mA; mC] =>
      ret (mkReport tU tJ tC tA tCat tF tCon aU aJ aC aCat aF pCon
                    mU mJ mA mC rU rJ rA g1 g2 g3 g4 g5 g6)
  | _, _, _, _ => throw
  end.

(** [GET /stats] past [protect]: the response and the trace of the run. *)
Definition stats : Response Doc * list Event :=
  match stats_body with
  | (Some report, tr) => (Stats report, tr)
  | (None, tr) => (Failure Doc 500 "Failed to fetch dashboard statistics", tr)
  end.

End Route.

(** The field of the report a query fills. *)
Definition count_field {Doc} (r : Report Doc) (q : CountQuery) : Z :=
  match q with
  | totalUsers => overview_totalUsers r
  | totalJobs => overview_totalJobs r
  | totalCompanies => overview_totalCompanies r
  | totalApplications => overview_totalApplications r
  | totalCategories => overview_totalCategories r
  | totalFAQs => overview_totalFAQs r
  | totalContent => overview_totalContent r
  | activeUsers => active_users r
  | activeJobs => active_jobs r
  | activeCompanies => active_companies r
  | activeCategories => active_categories r
  | activeFAQs => active_faqs r
  | publishedContent => active_content r
  | monthlyUsers => monthly_users r
  | monthlyJobs => monthly_jobs r
  | monthlyApplications => monthly_applications r
  | monthlyCompanies => monthly_companies r
  end.

Definition recent_field {Doc} (r : Report Doc) (q : RecentQuery) : list Doc :=
  match q with
  | recentUsers => recent_users r
  | recentJobs => recent_jobs r
  | recentApplications => recent_applications r
  end.

Definition group_field {Doc} (r : Report Doc) (q : GroupQuery)
  : list (string * Z) :=
  match q with
  | jobCategories => analytics_jobCategories r
  | userRoles => analytics_userRoles r
  | applicationStatus => analytics_applicationStatus r
  | companyIndustries => analytics_companyIndustries r
  | faqCategories => analytics_faqCategories r
  | contentTypes => analytics_contentTypes r
  end.

(** Reading a trace: is every count query in it dispatched before anything
    is awaited? *)
Definition is_count_dispatch (e : Event) : bool :=
  match e with
  | Dispatch (QCount _) => true
  | _ => false
  end.

Definition is_await (e : Event) : bool :=
  match e with
  | Await _ => true
  | Dispatch _ => false
  end.

Fixpoint counts_dispatched_before_any_await (tr : list Event) : bool :=
  match tr with
  | [] => true
  | e :: rest =>
      if is_await e then negb (existsb is_count_dispatch rest)
      else counts_dispatched_before_any_await rest
  end.

End Dashboard.


From Stdlib Require Import Sorted.

(* ================================================================= *)
(** ** Middleware chains and the remaining auth routes *)

(** [router.verb(path, first, second, ...)]: the second middleware runs on
    the request the first one passed on. *)
Definition chain (first second : Request -> Outcome) (req : Request) : Outcome :=
  match first req with
  | Respond status message => Respond status message
  | Next req' => second req'
  end.

Inductive RefreshResponse :=
| RefreshFailure (status : Z) (message : string)
| Refreshed (token : Jwt.Token) (admin : AdminSummary).     (* 200 *)

Inductive PasswordResponse :=
| PasswordValidationErrors (errors : list string)           (* 400 *)
| PasswordFailure (status : Z) (message : string)
| PasswordChanged.                                          (* 200 *)

Record PasswordBody := mkPasswordBody {
  currentPassword : option string;
  newPassword : option string
}.

Section MoreAuthRoutes.

Variable bcrypt_compare : string -> string -> bool.  (* bcrypt.compare(entered, hash) *)
Variable bcrypt_hash : string -> string -> string.   (* bcrypt.hash(password, salt) *)
Variable decode : string -> option Jwt.Token.
Variable config : Config.

(** A route behind [protect, checkPermission(permission)]. *)
Definition guarded (permission : string) (db : Admins) (now : Z)
  : Request -> Outcome :=
  chain (protect decode config db now) (checkPermission permission).

(** [POST /refresh]: [protect], then a fresh token for the admin loaded
    again by id. *)
Definition refresh (db : Admins) (now : Z) (req : Request) : RefreshResponse :=
  match protect decode config db now req with
  | Respond status message => RefreshFailure status message
  | Next req' =>
      match req_admin req' with
      | None => RefreshFailure 500 "Server error"
      | Some me =>
          match findById db (_id me) with
          | None => RefreshFailure 401 "Admin not found or inactive"
          | Some a =>
              if negb (isActive a)
              then RefreshFailure 401 "Admin not found or inactive"
              else Refreshed (generateToken config now (_id a)) (summary a)
          end
      end
  end.

Definition password_validation (b : PasswordBody) : list string :=
  required (currentPassword b) Js.truthy "Current password is required"
  ++ required (newPassword b) (fun p => 6 <=? str_length p)
       "New password must be at least 6 characters".

(** The [pre('save')] hook of the Admin schema after [admin.password = pw]:
    the path is modified only when the value differs from the loaded one,
    and a modified password is stored hashed under a fresh salt. *)
Definition assign_password (salt pw : string) (a : Admin) : Admin :=
  match password a with
  | Some old => if String.eqb old pw then a
                else set_password (Some (bcrypt_hash pw salt)) a
  | None => set_password (Some (bcrypt_hash pw salt)) a
  end.

(** [PUT /change-password]: [protect], the validators, then the handler;
    [salt] is what [bcrypt.genSalt(12)] yields on this request. *)
Definition change_password (db : Admins) (now : Z) (salt : string)
  (req : Request) (b : PasswordBody) : PasswordResponse * Admins :=
  match protect decode config db now req with
  | Respond status message => (PasswordFailure status message, db)
  | Next req' =>
      match password_validation b with
      | (_ :: _) as errors => (PasswordValidationErrors errors, db)
      | [] =>
          match req_admin req', currentPassword b, newPassword b with
          | Some me, Some current, Some new =>
              match findById db (_id me) with
              | None => (PasswordFailure 500 "Server error", db)
              | Some a =>
                  match password a with
                  | None => (PasswordFailure 500 "Server error", db)
                  | Some hash =>
                      if negb (bcrypt_compare current hash)
                      then (PasswordFailure 400 "Current password is incorrect", db)
                      else (PasswordChanged, save db (assign_password salt new a))
                  end
              end
          | _, _, _ => (PasswordFailure 500 "Server error", db)
          end
      end
  end.

End MoreAuthRoutes.

(* ================================================================= *)
(** ** The Category model's hook and statics (models/Category.js) and the
       remaining category routes *)

(** [[a-z0-9]] *)
Definition is_slug_char (c : ascii) : bool :=
  let n := nat_of_ascii c in
  (Nat.leb 97 n && Nat.leb n 122) || (Nat.leb 48 n && Nat.leb n 57).

(** [s.replace(/[^a-z0-9]+/g, '-')]; [in_run] says the previous character
    was already replaced. *)
Fixpoint dash_runs (in_run : bool) (s : string) : string :=
  match s with
  | EmptyString => EmptyString
  | String c rest =>
      if is_slug_char c then String c (dash_runs false rest)
      else if in_run then dash_runs true rest
           else String "-" (dash_runs true rest)
  end.

Definition is_dash (c : ascii) : bool := Ascii.eqb c "-".

(** The [^-] alternative: a dash at the start goes. *)
Definition strip_leading_dash (s : string) : string :=
  match s with
  | String c rest => if is_dash c then rest else s
  | EmptyString => s
  end.

(** The [-$] alternative: a dash at the end goes. *)
Fixpoint strip_trailing_dash (s : string) : string :=
  match s with
  | EmptyString => EmptyString
  | String c EmptyString => if is_dash c then EmptyString else s
  | String c rest => String c (strip_trailing_dash rest)
  end.

(** [s.replace(/(^-|-$)/g, '')] *)
Definition strip_dashes (s : string) : string :=
  strip_trailing_dash (strip_leading_dash s).

(** The slug the [pre('save')] hook derives from a name (over ASCII). *)
Definition slugify (name : string) : string :=
  strip_dashes (dash_runs false (Js.toLowerCase name)).

(** The hook itself: a document that has a slug keeps it. *)
Definition pre_save_slug (slug : option string) (name : string) : string :=
  match slug with
  | Some s => if Js.truthy s then s else slugify name
  | None => slugify name
  end.

(** [.limit(n)]: a limit of 0 is no limit. *)
Definition limit_to {A : Type} (n : nat) (l : list A) : list A :=
  match n with
  | O => l
  | _ => firstn n l
  end.

(** [.sort({ sortOrder: 1, jobCount: -1 })] *)
Definition featured_order (c d : Category) : bool :=
  (sortOrder c <? sortOrder d)
  || ((sortOrder c =? sortOrder d) && (jobCount d <=? jobCount c)).

(** [Category.getFeatured(limit)] *)
Definition getFeatured (db : Categories) (limit : nat) : list Category :=
  limit_to limit
    (sort_by featured_order
       (filter (fun c => cat_isActive c && isFeatured c) db)).

Record CategoryStats := mkCategoryStats {
  st_totalCategories : Z;
  st_totalJobs : Z;
  st_featuredCategories : Z
}.

(** [Category.getStats()]: one group over the active categories; no group
    at all when there is none, and then the zeros. *)
Definition getStats (db : Categories) : CategoryStats :=
  match filter cat_isActive db with
  | [] => mkCategoryStats 0 0 0
  | active =>
      mkCategoryStats
        (Z.of_nat (List.length active))
        (fold_right (fun c acc => jobCount c + acc) 0 active)
        (fold_right (fun c acc => (if isFeatured c then 1 else 0) + acc) 0 active)
  end.

(** [.sort({ sortOrder: 1, name: 1 })] *)
Definition tree_order (c d : Category) : bool :=
  (sortOrder c <? sortOrder d)
  || ((sortOrder c =? sortOrder d) && String.leb (name c) (name d)).

Definition is_child_of (parent : Category) (c : Category) : bool :=
  match parentCategory c with
  | Some p => String.eqb p (cat_id parent)
  | None => false
  end.

Definition is_root (c : Category) : bool :=
  match parentCategory c with
  | Some _ => false
  | None => true
  end.

(** [Category.getCategoryTree()]: each parentless active category with the
    active categories that name it as parent. *)
Definition getCategoryTree (db : Categories)
  : list (Category * list Category) :=
  let categories := sort_by tree_order (filter cat_isActive db) in
  map (fun parent => (parent, filter (is_child_of parent) categories))
      (filter is_root categories).

Record Overview := mkOverview {
  ov_totalCategories : Z;
  ov_activeCategories : Z;
  ov_featuredCategories : Z;
  ov_parentCategories : Z;
  ov_subCategories : Z
}.

Record StatsOverview := mkStatsOverview {
  so_overview : Overview;
  so_stats : CategoryStats;
  so_featuredCategories : list Category;
  so_categoryTree : list (Category * list Category)
}.

Definition count_where (db : Categories) (f : Category -> bool) : Z :=
  Z.of_nat (List.length (filter f db)).

(** [GET /stats/overview] past [protect] and [checkPermission]. *)
Definition stats_overview (db : Categories) : StatsOverview :=
  mkStatsOverview
    (mkOverview (count_where db (fun _ => true))
                (count_where db cat_isActive)
                (count_where db isFeatured)
                (count_where db is_root)
                (count_where db (fun c => negb (is_root c))))
    (getStats db)
    (getFeatured db 6)
    (getCategoryTree db).

Inductive DeleteResponse :=
| DeleteFailure (status : Z) (message : string)
| Deleted.                                           (* 200 *)

(** [Category.findById(id)] *)
Definition findCategory (db : Categories) (id : string) : option Category :=
  find (fun c => String.eqb (cat_id c) id) db.

(** [Category.findByIdAndDelete(id)] *)
Fixpoint findByIdAndDelete (db : Categories) (id : string) : Categories :=
  match db with
  | [] => []
  | c :: rest => if String.eqb (cat_id c) id then rest
                 else c :: findByIdAndDelete rest id
  end.

Definition has_parent (id : string) (c : Category) : bool :=
  match parentCategory c with
  | Some p => String.eqb p id
  | None => false
  end.

(** [DELETE /:id] past [protect] and [checkPermission]. *)
Definition delete_category (db : Categories) (id : string)
  : DeleteResponse * Categories :=
  match findCategory db id with
  | None => (DeleteFailure 404 "Category not found", db)
  | Some category =>
      let subCategories := filter (has_parent id) db in
      if 0 <? Z.of_nat (List.length subCategories) then
        (DeleteFailure 400
           "Cannot delete category with subcategories. Please delete subcategories first.",
         db)
      else if 0 <? jobCount category then
        (DeleteFailure 400
           "Cannot delete category with jobs. Please reassign or delete jobs first.",
         db)
      else (Deleted, findByIdAndDelete db id)
  end.

(* ================================================================= *)
(** ** The seeding script (createAdmin.js) *)

(** [ADMIN_EMAIL] and [ADMIN_PASSWORD] of config/config.js. *)
Record AdminSeed := mkAdminSeed {
  ADMIN_EMAIL : string;
  ADMIN_PASSWORD : string
}.

Definition default_seed : AdminSeed :=
  mkAdminSeed "admin@jobportal.com" "admin123456".

Definition all_permissions : list string :=
  ["manage_users"; "manage_jobs"; "manage_companies"; "manage_applications";
   "view_analytics"; "manage_admins"; "manage_content"; "manage_categories";
   "manage_faqs"].

Inductive Seeded :=
| AdminExists (existing : Admin)       (* exit 0, nothing written *)
| AdminCreated (created : Admin)       (* exit 0 *)
| SeedFailed.                          (* exit 1 *)

Section Seeding.

Variable bcrypt_hash : string -> string -> string.   (* bcrypt.hash(password, salt) *)

(** [createAdminUser], writing into [db]; [oid] and [salt] are the id and
    the salt this run draws.  [Admin.create] validates before the hook
    hashes: the address is required and the password has six characters or
    more. *)
Definition createAdminUser (seed : AdminSeed) (oid salt : string) (db : Admins)
  : Seeded * Admins :=
  match findOne_email db (ADMIN_EMAIL seed) with
  | Some existingAdmin => (AdminExists existingAdmin, db)
  | None =>
      if negb (Js.truthy (email_setter (ADMIN_EMAIL seed)))
         || (str_length (ADMIN_PASSWORD seed) <? 6)
      then (SeedFailed, db)
      else
        let admin :=
          mkAdmin oid "Admin" "User" (email_setter (ADMIN_EMAIL seed))
                  (Some (bcrypt_hash (ADMIN_PASSWORD seed) salt))
                  super_admin true all_permissions None None None None in
        (AdminCreated admin, (db ++ [admin])%list)
  end.

End Seeding.
(* ================================================================= *)
(** ** Vocabulary of the properties *)

(** The request carries a token that verifies and names a stored admin. *)
Definition resolves (decode : string -> option Jwt.Token) (config : Config)
  (db : Admins) (now : Z) (req : Request) (a : Admin) : Prop :=
  exists token decoded id,
    bearer req = BearerToken token
    /\ Jwt.verify (decode token) (JWT_SECRET config) now = Jwt.Decoded decoded
    /\ Jwt.id decoded = Some id
    /\ findById db id = Some a.

Definition rejected (status : Z) (o : Outcome) : Prop :=
  exists message, o = Respond status message.


(* ================================================================= *)
(** ** A small deployment, for running the handlers on concrete requests *)

Module Fixture.

(** Stand-ins for the external packages. *)
Definition isEmail (s : string) : bool :=
  match String.index 0 "@" s with
  | Some _ => true
  | None => false
  end.

Definition isMobilePhone (s : string) : bool := 10 <=? str_length s.

Definition bcrypt_hash (pw : string) : string := "$2a$12$" ++ pw.

Definition bcrypt_compare (entered hash : string) : bool :=
  String.eqb (bcrypt_hash entered) hash.

Definition root : Admin :=
  mkAdmin "a0" "Admin" "User" "admin@jobportal.com"
          (Some (bcrypt_hash "admin123456")) super_admin true []
          None None None None.

Definition alice : Admin :=
  mkAdmin "a1" "Alice" "Stone" "alice@jobportal.com"
          (Some (bcrypt_hash "wonderland")) admin true ["manage_jobs"]
          None None None None.

Definition carol : Admin :=
  mkAdmin "a2" "Carol" "Reed" "carol@jobportal.com"
          (Some (bcrypt_hash "crossword")) moderator false ["manage_faqs"]
          None None None None.

Definition admins : Admins := [root; alice; carol].

(** Tokens issued at clock reading 1000 under the default configuration,
    and the strings that carry them. *)
Definition issued (id : string) : Jwt.Token := generateToken default_config 1000 id.

Definition decode (s : string) : option Jwt.Token :=
  if String.eqb s "token-a0" then Some (issued "a0")
  else if String.eqb s "token-a1" then Some (issued "a1")
  else if String.eqb s "token-a2" then Some (issued "a2")
  else None.

Definition with_header (h : string) : Request := mkRequest (Some h) None.

End Fixture.

(* ================================================================= *)
(** ** Vocabulary of the login properties *)


(** What the schema keeps true of the admins collection: the unique index
    on [email], every address stored through its setter, and the required
    [password]. *)
Definition well_kept (db : Admins) : Prop :=
  NoDup (map email db)
  /\ Forall (fun a => email a = email_setter (email a)) db
  /\ Forall (fun a => password a <> None) db.

(** The response of [POST /login] to a body with both fields. *)
Definition login_response (isEmail : string -> bool)
  (bcrypt_compare : string -> string -> bool) (config : Config)
  (db : Admins) (now : Z) (e pw : string) : AuthResponse :=
  fst (login isEmail bcrypt_compare config db now
         (mkLoginBody (Some e) (Some pw))).

Definition authenticated (r : AuthResponse) : Prop :=
  exists token a, r = LoginSuccess token a.

(* ================================================================= *)
(** ** Fixtures of the category routes *)

Module CatFixture.

Definition regex_i (pattern subject : string) : bool :=
  match String.index 0 (Js.toLowerCase pattern) (Js.toLowerCase subject) with
  | Some _ => true
  | None => false
  end.

Definition castBoolean (v : Json) : option bool :=
  match v with
  | JBool b => Some b
  | _ => None
  end.

Definition castNumber (v : Json) : option Z :=
  match v with
  | JNum n => Some n
  | _ => None
  end.

Definition cat (id nm : string) (order : Z) : Category :=
  mkCategory id nm "A category of the job board, for listing." true false
             order None 0 order.

Definition categories : Categories :=
  [cat "c1" "Design" 3; cat "c2" "Engineering" 1; cat "c3" "Finance" 2;
   cat "c4" "Legal" 5; cat "c5" "Sales" 4].

Definition page (p l : Z) : ListQuery :=
  mkListQuery (Some p) (Some l) None None None None None None.

End CatFixture.

(* ================================================================= *)
(** ** Vocabulary of the bulk update property *)

(** A key of [updates] outside the allow-list. *)
Definition offending (ups : list (string * Json)) (field : string) : Prop :=
  In field (map fst ups) /\ ~ In field allowedFields.

(** The message contains the field's name. *)
Definition names (message field : string) : Prop :=
  exists before after, message = before ++ field ++ after.

Definition status_of (r : CategoryResponse) : Z :=
  match r with
  | CatValidationErrors _ => 400
  | CatFailure status _ => status
  | CatList _ _ => 200
  | CatBulkUpdated _ _ => 200
  end.

Module BulkFixture.

Definition body : BulkBody :=
  mkBulkBody (Some ["c1"; "c3"])
             (Some [("isActive", JBool false); ("notAllowedField", JNum 1);
                    ("name", JStr "Renamed")]).

(** The same updates with no ids. *)
Definition body_without_ids : BulkBody :=
  mkBulkBody None (Some [("notAllowedField", JNum 1)]).

End BulkFixture.

(* ================================================================= *)
(** ** Vocabulary and fixtures of the application properties *)

(** The collection holds an application of [user] for [jobId]. *)
Definition has_applied (db : Apply.Db) (jobId user : string) : Prop :=
  exists a, In a (Apply.apps db)
            /\ Apply.job a = jobId /\ Apply.applicant a = user.

(** The document names the job of the body. *)
Definition b_job_is (b : Apply.Body) (doc : Apply.Application) : Prop :=
  Apply.b_job b = Some (Apply.job doc).

(** The unique index holds. *)
Definition unique_index (db : Apply.Db) : Prop :=
  NoDup (map Apply.index_key (Apply.apps db)).

Module ApplyFixture.

Definition isMongoId (s : string) : bool := str_length s =? 24.

Definition jobId : string := "64b7f0c2a1d3e4f5a6b7c8d9".

Definition posting : Apply.Job :=
  Apply.mkJob jobId "company-1" true (Some 5000) [].

Definition db : Apply.Db := Apply.mkDb [posting] [].

Definition letter : string :=
  "I have built and run services like yours for six years and would like to bring that experience to your team.".

Definition body : Apply.Body :=
  Apply.mkBody (Some jobId) (Some letter) (Some "resume.pdf") (Some 50000)
               (Some "immediately").

(** The application of user [u1], once submitted, and the collection that
    holds it. *)
Definition submitted : Apply.Application :=
  Apply.mkApplication "o1" jobId "u1" "company-1" "pending" letter
                      "resume.pdf" 50000 "immediately".

Definition db_after : Apply.Db :=
  snd (Apply.apply_for_job isMongoId db 100 "u1" "o1" body).

End ApplyFixture.

(* ================================================================= *)
(** ** Vocabulary and fixtures of the dashboard properties *)

(** The events of one batch: every query dispatched, then the batch
    awaited. *)
Definition batch_events (qs : list Dashboard.Query) : list Dashboard.Event :=
  (map Dashboard.Dispatch qs ++ [Dashboard.Await qs])%list.

Definition total_counts : list Dashboard.Query :=
  map Dashboard.QCount
      [Dashboard.totalUsers; Dashboard.totalJobs; Dashboard.totalCompanies;
       Dashboard.totalApplications; Dashboard.totalCategories;
       Dashboard.totalFAQs; Dashboard.totalContent].

Definition active_counts : list Dashboard.Query :=
  map Dashboard.QCount
      [Dashboard.activeUsers; Dashboard.activeJobs; Dashboard.activeCompanies;
       Dashboard.activeCategories; Dashboard.activeFAQs;
       Dashboard.publishedContent].

Definition recent_lists : list Dashboard.Query :=
  map Dashboard.QRecent
      [Dashboard.recentUsers; Dashboard.recentJobs;
       Dashboard.recentApplications].

Definition monthly_counts : list Dashboard.Query :=
  map Dashboard.QCount
      [Dashboard.monthlyUsers; Dashboard.monthlyJobs;
       Dashboard.monthlyApplications; Dashboard.monthlyCompanies].

Definition groupings : list Dashboard.Query :=
  map Dashboard.QGroup
      [Dashboard.jobCategories; Dashboard.userRoles;
       Dashboard.applicationStatus; Dashboard.companyIndustries;
       Dashboard.faqCategories; Dashboard.contentTypes].

(** The batches of the report, one after the other; each grouping is a
    batch of its own. *)
Definition report_batches : list (list Dashboard.Query) :=
  ([total_counts; active_counts; recent_lists; monthly_counts]
   ++ map (fun q => [q]) groupings)%list.

Module DashFixture.

(** A database whose [totalJobs] count and [userRoles] grouping fail. *)
Definition db : Dashboard.Database string :=
  Dashboard.mkDatabase
    (fun q => match q with
              | Dashboard.totalJobs => None
              | Dashboard.totalUsers => Some 12
              | _ => Some 3
              end)
    (fun q => match q with
              | Dashboard.recentJobs => None
              | _ => Some ["doc"]
              end)
    (fun q => match q with
              | Dashboard.userRoles => None
              | _ => Some [("pending", 2)]
              end).

End DashFixture.

(* ================================================================= *)
(** ** Vocabulary of the password properties *)

(** The stored hash inside a response, when the response carries one. *)
Definition hash_in_response (r : AuthResponse) : option string :=
  match r with
  | ProfileData data => password data
  | ProfileUpdated data => password data
  | ValidationErrors _ => None
  | Failure _ _ => None
  | LoginSuccess _ _ => None
  end.

(* ================================================================= *)
(** ** Further vocabulary: the admins collection *)

(** Ids are unique and never empty, as ObjectIds are. *)
Definition ids_ok (db : Admins) : Prop :=
  NoDup (map _id db) /\ Forall (fun a => _id a <> "") db.

(** What a profile update must not touch. *)
Definition privileges (a : Admin)
  : string * Role * bool * list string * option string :=
  (_id a, role a, isActive a, permissions a, password a).


Module Fixture2.

(** A salted hash: the fixture's comparison forgets the salt. *)
Definition bcrypt_hash (pw salt : string) : string := Fixture.bcrypt_hash pw.

End Fixture2.

(** A token edited after it was signed: another subject under the old
    signature. *)
Definition with_subject (t : Jwt.Token) (id : string) : Jwt.Token :=
  Jwt.mkToken
    (Jwt.mkPayload (Some id) (Jwt.iat (Jwt.payload t)) (Jwt.nbf (Jwt.payload t))
                   (Jwt.exp (Jwt.payload t)))
    (Jwt.signature t).

(** The token verifies, at that clock reading, to that subject. *)
Definition verifies_to (t : Jwt.Token) (config : Config) (later : Z)
  (id : string) : Prop :=
  exists decoded,
    Jwt.verify (Some t) (JWT_SECRET config) later = Jwt.Decoded decoded
    /\ Jwt.id decoded = Some id.

(* ================================================================= *)
(** ** Further vocabulary: category listing *)

(** The documents a list request is answered with ([[]] when it is refused). *)
Definition page_of (regex_i : string -> string -> bool) (db : Categories)
  (q : ListQuery) : list Category :=
  match list_categories regex_i db q with
  | CatList data _ => data
  | _ => []
  end.




(** The fields a bulk update has no way to reach. *)
Definition fixed_fields (c : Category)
  : string * string * string * option string * Z * Z :=
  (cat_id c, name c, description c, parentCategory c, jobCount c, createdAt c).

(* ================================================================= *)
(** ** Further vocabulary: slugs, category trees, deletions *)

(** Only [a-z0-9-], and no dash right after a dash; [after_dash] says the
    string continues one that ended in a dash (or has not begun). *)
Fixpoint slug_shaped (after_dash : bool) (s : string) : bool :=
  match s with
  | EmptyString => true
  | String c rest =>
      if is_dash c then negb after_dash && slug_shaped true rest
      else is_slug_char c && slug_shaped false rest
  end.

Fixpoint ends_with_dash (s : string) : bool :=
  match s with
  | EmptyString => false
  | String c EmptyString => is_dash c
  | String _ rest => ends_with_dash rest
  end.

(** A clean slug: only [a-z0-9-], no dash first or last, no two dashes in
    a row. *)
Definition clean_slug (s : string) : bool :=
  slug_shaped true s && negb (ends_with_dash s).

(** Every parent a category names is in the collection. *)
Definition parents_exist (db : Categories) : Prop :=
  forall c p, In c db -> parentCategory c = Some p ->
              exists d, In d db /\ cat_id d = p.

(** The category is somewhere in the tree, as a root or under one. *)
Definition in_tree (c : Category) (tree : list (Category * list Category))
  : Prop :=
  In c (map fst tree) \/ exists node, In node tree /\ In c (snd node).

Module TreeFixture.

Definition node (id nm : string) (active : bool) (parent : option string)
  (jobs : Z) : Category :=
  mkCategory id nm "A category of the job board, for listing." active false
             0 parent jobs 0.

Definition tech : Category := node "t" "Tech" true None 0.
Definition web : Category := node "w" "Web" true (Some "t") 0.
Definition react : Category := node "r" "React" true (Some "w") 0.
Definition retired : Category := node "x" "Retired" false None 0.
Definition legacy : Category := node "l" "Legacy" true (Some "x") 0.
Definition busy : Category := node "b" "Busy" true None 4.

Definition categories : Categories := [tech; web; react; retired; legacy; busy].

End TreeFixture.
(* ================================================================= *)
(** * Properties *)

(** ** Shared facts *)

Unset Implicit Arguments.

Lemma includes_In (arr : list string) (x : string) :
  Js.includes arr x = true <-> In x arr.
Proof.
  unfold Js.includes. rewrite existsb_exists. split.
  - intros [y [Hin Heq]]. apply String.eqb_eq in Heq. now subst.
  - intros Hin. exists x. split; [assumption | apply String.eqb_refl].
Qed.

Lemma role_eqb_eq (r s : Role) : role_eqb r s = true <-> r = s.
Proof. destruct r, s; simpl; split; intros H; congruence. Qed.

Lemma truthy_nonempty (s : string) : Js.truthy s = true <-> s <> "".
Proof.
  unfold Js.truthy. rewrite negb_true_iff. apply String.eqb_neq.
Qed.

Lemma payload_eqb_refl (p : Jwt.Payload) : Jwt.payload_eqb p p = true.
Proof.
  unfold Jwt.payload_eqb.
  destruct p as [i t n e]; simpl.
  rewrite Z.eqb_refl.
  destruct i as [i|], n as [n|], e as [e|]; simpl;
    rewrite ?String.eqb_refl, ?Z.eqb_refl; reflexivity.
Qed.

Lemma sign_signature_valid (subject secret : string) (ttl now : Z) :
  Jwt.signature_valid secret (Jwt.sign subject secret ttl now) = true.
Proof.
  unfold Jwt.signature_valid, Jwt.sign; simpl Jwt.signature; simpl Jwt.payload.
  cbn [Jwt.sig_key Jwt.sig_payload].
  rewrite String.eqb_refl, payload_eqb_refl. reflexivity.
Qed.

(** ** The authorization gate *)



Lemma isActive_select (a : Admin) :
  isActive (select_minus_password a) = isActive a.
Proof. reflexivity. Qed.

(** The handler runs only past every check of [protect]. *)
Lemma protect_next_inv :
  forall (decode : string -> option Jwt.Token) (config : Config)
         (db : Admins) (now : Z) (req req' : Request),
    protect decode config db now req = Next req' ->
    exists a, resolves decode config db now req a
              /\ isActive a = true
              /\ req' = attach req (select_minus_password a).
Proof.
  intros decode config db now req req'. unfold protect.
  destruct (bearer req) as [| | token] eqn:Hb; try discriminate.
  destruct (Jwt.verify (decode token) (JWT_SECRET config) now)
    as [decoded | e] eqn:Hv; [| destruct e; discriminate].
  destruct (Jwt.id decoded) as [id |] eqn:Hid; [| discriminate].
  destruct (Js.truthy id) eqn:Ht; simpl negb; cbv iota; [| discriminate].
  destruct (findById db id) as [a |] eqn:Hf; simpl option_map; cbv iota;
    [| discriminate].
  rewrite isActive_select.
  destruct (isActive a) eqn:Ha; simpl negb; cbv iota; [| discriminate].
  intros H. injection H as <-.
  exists a. split; [| split]; [| assumption | reflexivity].
  exists token, decoded, id. auto.
Qed.


(** C2. A super_admin passes [checkPermission(p)] for every permission
    string, whatever its stored permissions; an admin of another role passes
    exactly when [p] is one of its stored permissions. *)
Theorem checkPermission_super_admin_or_member :
  forall (p : string) (req : Request) (a : Admin),
    req_admin req = Some a ->
    (role a = super_admin ->
       hasPermission a p = true /\ checkPermission p req = Next req)
    /\
    (role a <> super_admin ->
       (hasPermission a p = true <-> In p (permissions a))
       /\ (checkPermission p req = Next req <-> In p (permissions a))).
Proof.
  intros p req a Hreq. unfold checkPermission. rewrite Hreq.
  unfold hasPermission. split.
  - intros Hr. rewrite Hr. simpl role_eqb. rewrite orb_true_r. simpl. auto.
  - intros Hr.
    assert (Hn : role_eqb (role a) super_admin = false).
    { destruct (role_eqb (role a) super_admin) eqn:E; [| reflexivity].
      apply role_eqb_eq in E. contradiction. }
    rewrite Hn, orb_false_r. split.
    + apply includes_In.
    + rewrite <- includes_In.
      destruct (Js.includes (permissions a) p); simpl; split; intros H;
        try reflexivity; discriminate.
Qed.


(** On the fixture: a super_admin with no stored permission. *)
Lemma checkPermission_super_admin_or_member_witness :
  req_admin (attach (Fixture.with_header "Bearer token-a0") Fixture.root)
    = Some Fixture.root
  /\ ~ In "manage_faqs" (permissions Fixture.root)
  /\ checkPermission "manage_faqs"
       (attach (Fixture.with_header "Bearer token-a0") Fixture.root)
     = Next (attach (Fixture.with_header "Bearer token-a0") Fixture.root).
Proof.
  split; [reflexivity | split; [intros H; exact H |]].
  exact (proj2 (proj1 (checkPermission_super_admin_or_member "manage_faqs"
                         (attach (Fixture.with_header "Bearer token-a0") Fixture.root)
                         Fixture.root eq_refl) eq_refl)).
Defined.


(** C4. A token issued for an id verifies to that id at every clock
    reading before the configured span has elapsed since issuance, and is
    refused as expired at every clock reading from then on. *)
Theorem verify_issue_until_ttl :
  forall (config : Config) (id : string) (now later : Z),
    (later < now + JWT_EXPIRE config ->
     exists decoded,
       Jwt.verify (Some (generateToken config now id)) (JWT_SECRET config) later
         = Jwt.Decoded decoded
       /\ Jwt.id decoded = Some id)
    /\
    (now + JWT_EXPIRE config <= later ->
     Jwt.verify (Some (generateToken config now id)) (JWT_SECRET config) later
       = Jwt.Threw Jwt.TokenExpiredError).
Proof.
  intros config id now later.
  unfold generateToken, Jwt.verify.
  rewrite sign_signature_valid. simpl negb. cbv iota.
  unfold Jwt.sign. cbn [Jwt.payload Jwt.nbf Jwt.exp Jwt.id].
  split; intros H.
  - destruct (Z.leb_spec (now + JWT_EXPIRE config) later) as [Hle | Hgt];
      [lia |].
    eexists. split; reflexivity.
  - destruct (Z.leb_spec (now + JWT_EXPIRE config) later) as [Hle | Hgt];
      [reflexivity | lia].
Qed.

(** Under the default configuration: one second before and one second
    after the seven days. *)
Lemma verify_issue_until_ttl_witness :
  (exists decoded,
     Jwt.verify (Some (generateToken default_config 1000 "a1"))
                (JWT_SECRET default_config) (1000 + 604799)
       = Jwt.Decoded decoded
     /\ Jwt.id decoded = Some "a1")
  /\ Jwt.verify (Some (generateToken default_config 1000 "a1"))
                (JWT_SECRET default_config) (1000 + 604801)
     = Jwt.Threw Jwt.TokenExpiredError.
Proof.
  split.
  - apply (proj1 (verify_issue_until_ttl default_config "a1" 1000 (1000 + 604799))).
    reflexivity.
  - apply (proj2 (verify_issue_until_ttl default_config "a1" 1000 (1000 + 604801))).
    discriminate.
Defined.

(** ** The login flow *)

Lemma findOne_email_In (db : Admins) (e : string) (a : Admin) :
  findOne_email db e = Some a -> In a db /\ email a = email_setter e.
Proof.
  unfold findOne_email. intros H. apply find_some in H.
  destruct H as [Hin Heq]. apply String.eqb_eq in Heq. auto.
Qed.

Lemma findOne_email_unique (db : Admins) (e : string) (a : Admin) :
  NoDup (map email db) -> In a db -> email a = email_setter e ->
  findOne_email db e = Some a.
Proof.
  unfold findOne_email. induction db as [| b rest IH]; intros Hnd Hin Heq.
  - contradiction.
  - simpl. inversion Hnd as [| x l Hnotin Hnd']; subst.
    destruct Hin as [-> | Hin].
    + rewrite Heq, String.eqb_refl. reflexivity.
    + destruct (String.eqb (email b) (email_setter e)) eqn:E.
      * apply String.eqb_eq in E. exfalso. apply Hnotin.
        rewrite E, <- Heq. now apply in_map.
      * now apply IH.
Qed.




Lemma fixture_admins_well_kept : well_kept Fixture.admins.
Proof.
  unfold well_kept, Fixture.admins. split; [| split].
  - simpl. repeat constructor; simpl; intuition discriminate.
  - repeat constructor.
  - repeat constructor; discriminate.
Qed.



(** ** Pagination *)



Lemma ceil_div_bounds (a b : Z) :
  0 <= a -> 0 < b ->
  (Js.ceil_div a b - 1) * b < a <= Js.ceil_div a b * b.
Proof.
  intros Ha Hb. unfold Js.ceil_div.
  pose proof (Z.div_mod a b ltac:(lia)) as Hdm.
  pose proof (Z.mod_pos_bound a b Hb) as Hmod.
  destruct (Z.eqb_spec (a mod b) 0) as [E | E]; nia.
Qed.




(** ** Bulk update *)

Lemma string_app_assoc (s t u : string) : (s ++ t) ++ u = s ++ t ++ u.
Proof.
  induction s as [| c s IH]; simpl; [reflexivity | now rewrite IH].
Qed.

Lemma join_names (sep : string) (l : list string) (f : string) :
  In f l -> names (Js.join sep l) f.
Proof.
  unfold names, Js.join. induction l as [| x xs IH]; intros Hin.
  - contradiction.
  - destruct Hin as [-> | Hin].
    + destruct xs as [| y ys].
      * exists "", "". simpl.
        induction f as [| c f IHf]; simpl; [reflexivity | now rewrite <- IHf].
      * exists "", (sep ++ String.concat sep (y :: ys)). reflexivity.
    + destruct (IH Hin) as (before & after & E).
      destruct xs as [| y ys]; [contradiction |].
      exists (x ++ sep ++ before), after.
      change (String.concat sep (x :: y :: ys))
        with (x ++ sep ++ String.concat sep (y :: ys)).
      rewrite E. now rewrite !string_app_assoc.
Qed.

Lemma offending_invalid (ups : list (string * Json)) (f : string) :
  offending ups f <-> In f (invalidFields ups).
Proof.
  unfold offending, invalidFields. rewrite filter_In, negb_true_iff.
  pose proof (includes_In allowedFields f) as H.
  destruct (Js.includes allowedFields f); split; intros [H1 H2];
    split; try assumption; try reflexivity.
  - exfalso. apply H2, H. reflexivity.
  - discriminate.
  - intros Hin. apply H in Hin. discriminate.
Qed.

(** C8, as the code has it.  A bulk update whose [updates] object has a key
    outside the allow-list is answered 400 and leaves every document as it
    was; when the body passes the route's validators ([categoryIds] a
    non-empty array), the message of that answer is 'Invalid fields: '
    followed by the offending keys, so it names each of them. *)
Theorem bulk_update_rejects_unlisted_fields :
  forall (castBoolean : Json -> option bool) (castNumber : Json -> option Z)
         (db : Categories) (b : BulkBody) (ups : list (string * Json))
         (field : string),
    updates b = Some ups ->
    offending ups field ->
    (status_of (fst (bulk_update castBoolean castNumber db b)) = 400
     /\ snd (bulk_update castBoolean castNumber db b) = db)
    /\
    (bulk_validation b = [] ->
     fst (bulk_update castBoolean castNumber db b)
       = CatFailure 400 ("Invalid fields: " ++ Js.join ", " (invalidFields ups))
     /\ forall g, offending ups g ->
          names ("Invalid fields: " ++ Js.join ", " (invalidFields ups)) g).
Proof.
  intros castBoolean castNumber db b ups field Hu Hoff.
  apply offending_invalid in Hoff.
  assert (Hpos : (0 <? Z.of_nat (List.length (invalidFields ups))) = true).
  { apply Z.ltb_lt. destruct (invalidFields ups); [contradiction | simpl; lia]. }
  unfold bulk_update.
  destruct (bulk_validation b) as [| err errs] eqn:Hv.
  - assert (Hids : exists i ids, categoryIds b = Some (i :: ids)).
    { unfold bulk_validation in Hv.
      destruct (categoryIds b) as [[| i ids] |]; simpl in Hv;
        try discriminate. eauto. }
    destruct Hids as (i & ids & Hids). rewrite Hids, Hu, Hpos.
    split; [split; reflexivity |]. intros _. split; [reflexivity |].
    intros g Hg. apply offending_invalid in Hg.
    destruct (join_names ", " (invalidFields ups) g Hg) as (before & after & E).
    exists ("Invalid fields: " ++ before), after.
    rewrite E. now rewrite string_app_assoc.
  - split; [split; reflexivity |]. intros H; discriminate.
Qed.

(** On the fixture: two unlisted keys next to a listed one. *)
Lemma bulk_update_rejects_unlisted_fields_witness :
  updates BulkFixture.body
    = Some [("isActive", JBool false); ("notAllowedField", JNum 1);
            ("name", JStr "Renamed")]
  /\ bulk_validation BulkFixture.body = []
  /\ fst (bulk_update CatFixture.castBoolean CatFixture.castNumber
            CatFixture.categories BulkFixture.body)
     = CatFailure 400 "Invalid fields: notAllowedField, name"
  /\ snd (bulk_update CatFixture.castBoolean CatFixture.castNumber
            CatFixture.categories BulkFixture.body)
     = CatFixture.categories
  /\ names "Invalid fields: notAllowedField, name" "notAllowedField".
Proof.
  assert (Hoff : offending [("isActive", JBool false); ("notAllowedField", JNum 1);
                            ("name", JStr "Renamed")] "notAllowedField").
  { split; simpl; [auto | intuition discriminate]. }
  destruct (bulk_update_rejects_unlisted_fields CatFixture.castBoolean
              CatFixture.castNumber CatFixture.categories BulkFixture.body
              _ "notAllowedField" eq_refl Hoff) as [[_ Hdb] Hmsg].
  destruct (Hmsg eq_refl) as [Hr Hn].
  split; [reflexivity | split; [reflexivity | split; [exact Hr |]]].
  split; [exact Hdb | exact (Hn "notAllowedField" Hoff)].
Defined.

(** C8 as stated fails on a request with an offending field and no ids:
    the validators answer first, and neither the message nor the listed
    errors of that answer name the field. *)
Lemma bulk_update_field_not_named :
  offending [("notAllowedField", JNum 1)] "notAllowedField"
  /\ bulk_update CatFixture.castBoolean CatFixture.castNumber
       CatFixture.categories BulkFixture.body_without_ids
     = (CatValidationErrors
          ["Category IDs must be an array with at least one ID"],
        CatFixture.categories)
  /\ String.index 0 "notAllowedField"
       "Category IDs must be an array with at least one ID" = None
  /\ String.index 0 "notAllowedField" "Validation errors" = None.
Proof.
  split; [split; simpl; [auto | intuition discriminate] |].
  repeat split; reflexivity.
Qed.

(** ** Applying for a job *)

Lemma has_applied_existsb (db : Apply.Db) (j u : string) :
  has_applied db j u <-> existsb (Apply.same_key j u) (Apply.apps db) = true.
Proof.
  unfold has_applied, Apply.same_key. rewrite existsb_exists.
  split; intros (a & Hin & H); exists a; split; try assumption.
  - destruct H as [-> ->]. now rewrite !String.eqb_refl.
  - apply andb_true_iff in H. destruct H as [H1 H2].
    split; now apply String.eqb_eq.
Qed.

Lemma has_applied_findOne (db : Apply.Db) (j u : string) :
  has_applied db j u -> exists a, Apply.findOne db j u = Some a.
Proof.
  intros H. apply has_applied_existsb in H. unfold Apply.findOne.
  destruct (find (Apply.same_key j u) (Apply.apps db)) as [a |] eqn:E;
    [eauto |].
  apply existsb_exists in H. destruct H as (a & Hin & Hk).
  apply (find_none _ _ E) in Hin. congruence.
Qed.

Lemma create_refuses_duplicate (db : Apply.Db) (doc : Apply.Application) :
  has_applied db (Apply.job doc) (Apply.applicant doc) ->
  Apply.create db doc = Apply.DuplicateKey.
Proof.
  intros H. apply has_applied_existsb in H. unfold Apply.create.
  now rewrite H.
Qed.

Lemma create_keeps_unique_index (db db' : Apply.Db) (doc : Apply.Application) :
  unique_index db -> Apply.create db doc = Apply.Created db' ->
  unique_index db'.
Proof.
  unfold unique_index, Apply.create. intros Hnd.
  destruct (existsb _ (Apply.apps db)) eqn:E; [discriminate |].
  intros H. injection H as <-. cbn [Apply.apps].
  rewrite map_app. simpl map.
  apply NoDup_app_remove_l with (l := []). simpl.
  apply Permutation_NoDup with (l := Apply.index_key doc :: map Apply.index_key (Apply.apps db)).
  - apply Permutation_cons_append.
  - constructor; [| assumption].
    intros Hin. apply in_map_iff in Hin. destruct Hin as (a & Hk & Hin).
    assert (Hex : existsb (Apply.same_key (Apply.job doc) (Apply.applicant doc))
                    (Apply.apps db) = true).
    { apply existsb_exists. exists a. split; [assumption |].
      unfold Apply.index_key in Hk. injection Hk as Hj Hu.
      unfold Apply.same_key. now rewrite Hj, Hu, !String.eqb_refl. }
    congruence.
Qed.

Lemma checks_doc (isMongoId : string -> bool) (db : Apply.Db) (now : Z)
  (user oid : string) (b : Apply.Body) (jb : Apply.Job)
  (doc : Apply.Application) :
  Apply.checks isMongoId db now user oid b = Apply.Proceed jb doc ->
  b_job_is b doc /\ Apply.applicant doc = user
  /\ Apply.findOne db (Apply.job doc) user = None.
Proof.
  unfold Apply.checks, b_job_is.
  destruct (Apply.validation isMongoId b); [| discriminate].
  destruct (Apply.b_job b) as [j |]; [| discriminate].
  destruct (Apply.b_coverLetter b); [| discriminate].
  destruct (Apply.b_resume b); [| discriminate].
  destruct (Apply.b_expectedSalary b); [| discriminate].
  destruct (Apply.b_availability b); [| discriminate].
  destruct (Apply.findJob db j) as [jb' |]; [| discriminate].
  destruct (negb (Apply.job_isActive jb')); [discriminate |].
  destruct (match Apply.applicationDeadline jb' with
            | Some d => d <? now
            | None => false
            end); [discriminate |].
  destruct (Apply.findOne db j user) eqn:E; [discriminate |].
  intros H. injection H as <- <-. simpl. auto.
Qed.

(** What the handler answers when only the unique index catches the
    duplicate: the insert throws, and the catch-all responds. *)
Lemma submit_duplicate_lands_in_catch :
  forall (db : Apply.Db) (jb : Apply.Job) (doc : Apply.Application),
    has_applied db (Apply.job doc) (Apply.applicant doc) ->
    Apply.submit db jb doc = (Apply.Failure 500 "Server error", db).
Proof.
  intros db jb doc H. unfold Apply.submit.
  now rewrite (create_refuses_duplicate db doc H).
Qed.

(** C6, as the code has it.  While the collection holds an application of
    the user for the job: a request served on its own creates no document,
    and once it is past validation and the job checks it is answered 400
    'You have already applied for this job'; an insert that reaches the
    storage layer is refused by the unique index and leaves the collection
    as it was.  The unique index holds after every insert. *)
Theorem apply_never_duplicates :
  forall (isMongoId : string -> bool) (db : Apply.Db) (now : Z)
         (user oid jobId : string) (b : Apply.Body),
    Apply.b_job b = Some jobId ->
    has_applied db jobId user ->
    (* served on its own *)
    (Apply.apps (snd (Apply.apply_for_job isMongoId db now user oid b))
       = Apply.apps db
     /\ (forall jb,
           Apply.validation isMongoId b = [] ->
           Apply.findJob db jobId = Some jb ->
           Apply.job_isActive jb = true ->
           (forall d, Apply.applicationDeadline jb = Some d -> now <= d) ->
           fst (Apply.apply_for_job isMongoId db now user oid b)
             = Apply.Failure 400 "You have already applied for this job"))
    /\
    (* caught only by the unique index *)
    (forall jb doc,
       Apply.job doc = jobId -> Apply.applicant doc = user ->
       Apply.create db doc = Apply.DuplicateKey
       /\ snd (Apply.submit db jb doc) = db)
    /\
    (* the index is kept *)
    (forall jb doc,
       unique_index db -> unique_index (snd (Apply.submit db jb doc))).
Proof.
  intros isMongoId db now user oid jobId b Hj Happ.
  split; [split |]; [| | split].
  - unfold Apply.apply_for_job.
    destruct (Apply.checks isMongoId db now user oid b) as [r | jb doc] eqn:E;
      [reflexivity |].
    apply checks_doc in E. destruct E as (Hb & Hu & Hnone).
    unfold b_job_is in Hb. rewrite Hj in Hb. injection Hb as Hb.
    rewrite <- Hb in Hnone.
    destruct (has_applied_findOne db jobId user Happ) as [a Ha]. congruence.
  - intros jb Hv Hjob Hact Hdl.
    destruct (has_applied_findOne db jobId user Happ) as [a Ha].
    unfold Apply.apply_for_job, Apply.checks. rewrite Hv, Hj.
    assert (Hfields : exists cl rs sal av,
               Apply.b_coverLetter b = Some cl /\ Apply.b_resume b = Some rs
               /\ Apply.b_expectedSalary b = Some sal
               /\ Apply.b_availability b = Some av).
    { unfold Apply.validation, required in Hv.
      destruct (Apply.b_job b); [| discriminate].
      destruct (Apply.b_coverLetter b) as [cl |];
        [| destruct (check _ _); discriminate].
      destruct (Apply.b_resume b) as [rs |];
        [| destruct (check _ _), (check _ _); discriminate].
      destruct (Apply.b_expectedSalary b) as [sal |];
        [| destruct (check _ _), (check _ _), (check _ _); discriminate].
      destruct (Apply.b_availability b) as [av |];
        [| destruct (check _ _), (check _ _), (check _ _), (check _ _);
           discriminate].
      exists cl, rs, sal, av. auto. }
    destruct Hfields as (cl & rs & sal & av & -> & -> & -> & ->).
    rewrite Hjob, Hact. simpl negb. cbv iota.
    assert (Hd : match Apply.applicationDeadline jb with
                 | Some d => d <? now
                 | None => false
                 end = false).
    { destruct (Apply.applicationDeadline jb) as [d |] eqn:Ed; [| reflexivity].
      apply Z.ltb_ge. now apply Hdl. }
    rewrite Hd, Ha. reflexivity.
  - intros jb doc Hjd Hud.
    assert (Hdup : has_applied db (Apply.job doc) (Apply.applicant doc))
      by now rewrite Hjd, Hud.
    split; [exact (create_refuses_duplicate db doc Hdup) |].
    now rewrite (submit_duplicate_lands_in_catch db jb doc Hdup).
  - intros jb doc Hnd. unfold Apply.submit.
    destruct (Apply.create db doc) as [db' |] eqn:E; [| exact Hnd].
    simpl snd. unfold unique_index, Apply.push_application. cbn [Apply.apps].
    exact (create_keeps_unique_index db db' doc Hnd E).
Qed.

(** On the fixture: the same user applies again, later. *)
Lemma apply_never_duplicates_witness :
  Apply.b_job ApplyFixture.body = Some ApplyFixture.jobId
  /\ has_applied ApplyFixture.db_after ApplyFixture.jobId "u1"
  /\ fst (Apply.apply_for_job ApplyFixture.isMongoId ApplyFixture.db_after
            200 "u1" "o2" ApplyFixture.body)
     = Apply.Failure 400 "You have already applied for this job"
  /\ Apply.apps (snd (Apply.apply_for_job ApplyFixture.isMongoId
                        ApplyFixture.db_after 200 "u1" "o2" ApplyFixture.body))
     = [ApplyFixture.submitted].
Proof.
  assert (H : has_applied ApplyFixture.db_after ApplyFixture.jobId "u1").
  { exists ApplyFixture.submitted. repeat split. left. reflexivity. }
  destruct (apply_never_duplicates ApplyFixture.isMongoId ApplyFixture.db_after
              200 "u1" "o2" ApplyFixture.jobId ApplyFixture.body eq_refl H)
    as [[Hsame Hresp] _].
  split; [reflexivity | split; [exact H | split]].
  - apply (Hresp (Apply.mkJob ApplyFixture.jobId "company-1" true (Some 5000)
                    ["o1"]) eq_refl eq_refl eq_refl).
    intros d Hd. injection Hd as <-. lia.
  - exact Hsame.
Defined.

(** C6 as stated fails when two requests of the same user for the same job
    are served together: both pass the handler's look-up before either
    inserts, the second insert is refused by the unique index, and that
    request is answered 500 'Server error', not 'already applied'.  One
    document is created. *)
Lemma apply_race_answers_500 :
  Apply.apply_twice_interleaved ApplyFixture.isMongoId ApplyFixture.db 100
    "u1" "o1" "o2" ApplyFixture.body
  = ((Apply.Submitted ApplyFixture.submitted,
      Apply.Failure 500 "Server error"),
     ApplyFixture.db_after)
  /\ Apply.apps ApplyFixture.db_after = [ApplyFixture.submitted].
Proof. split; reflexivity. Qed.

(** ** The dashboard report *)

(** C7, as the code has it.  The report is always returned successfully.
    Each count field is the result of its own query, or 0 when that query
    fails; each recent list and each grouping is the result of its own
    query, or the empty list when it fails; so a failing query changes its
    own field and no other.  The queries run in batches, one batch after
    the other: the seven totals, the six active counts, the three recent
    lists, the four monthly counts, then each grouping alone; within a
    batch every query is dispatched before the batch is awaited. *)
Theorem stats_degrades_per_field :
  forall (Doc : Type) (db : Dashboard.Database Doc),
    (exists report,
       fst (Dashboard.stats db) = Dashboard.Stats report
       /\ (forall q, Dashboard.count_field report q
                     = match Dashboard.count db q with
                       | Some n => n
                       | None => 0
                       end)
       /\ (forall q, Dashboard.recent_field report q
                     = match Dashboard.recent db q with
                       | Some docs => docs
                       | None => []
                       end)
       /\ (forall q, Dashboard.group_field report q
                     = match Dashboard.group db q with
                       | Some groups => groups
                       | None => []
                       end))
    /\ snd (Dashboard.stats db) = List.concat (map batch_events report_batches).
Proof.
  intros Doc db. split.
  - eexists. split; [reflexivity |].
    split; [| split]; intros q; destruct q; reflexivity.
  - reflexivity.
Qed.

(** C7 as stated fails on the order of the queries: the first active count
    is dispatched after the batch of totals has been awaited. *)
Lemma stats_counts_not_all_dispatched_first :
  nth_error (snd (Dashboard.stats DashFixture.db)) 7
    = Some (Dashboard.Await total_counts)
  /\ nth_error (snd (Dashboard.stats DashFixture.db)) 8
     = Some (Dashboard.Dispatch (Dashboard.QCount Dashboard.activeUsers))
  /\ Dashboard.counts_dispatched_before_any_await
       (snd (Dashboard.stats DashFixture.db)) = false.
Proof. repeat split; reflexivity. Qed.

(** ** The password hash *)

(** What [protect] attaches to the request carries no password: the admin
    is loaded with [select('-password')]. *)
Lemma protect_attaches_without_password :
  forall (decode : string -> option Jwt.Token) (config : Config)
         (db : Admins) (now : Z) (req req' : Request) (a : Admin),
    protect decode config db now req = Next req' ->
    req_admin req' = Some a ->
    password a = None.
Proof.
  intros decode config db now req req' a Hp Ha.
  destruct (protect_next_inv decode config db now req req' Hp)
    as (b & _ & _ & ->).
  simpl in Ha. injection Ha as <-. reflexivity.
Qed.

(** On the fixture: what [protect] attaches for an active admin. *)
Lemma protect_attaches_without_password_witness :
  protect Fixture.decode default_config Fixture.admins 2000
          (Fixture.with_header "Bearer token-a1")
  = Next (attach (Fixture.with_header "Bearer token-a1")
                 (select_minus_password Fixture.alice))
  /\ password (select_minus_password Fixture.alice) = None.
Proof.
  split; [reflexivity |].
  exact (protect_attaches_without_password Fixture.decode default_config
           Fixture.admins 2000 (Fixture.with_header "Bearer token-a1")
           (attach (Fixture.with_header "Bearer token-a1")
                   (select_minus_password Fixture.alice))
           (select_minus_password Fixture.alice) eq_refl eq_refl).
Defined.

(** The [admin] object of the login response does not depend on the hash. *)
Lemma summary_ignores_password :
  forall (a : Admin) (pw : option string),
    summary (set_password pw a) = summary a.
Proof. intros a pw. reflexivity. Qed.

(** [GET /profile] answers with a document that has no password. *)
Lemma get_profile_without_password :
  forall (decode : string -> option Jwt.Token) (config : Config)
         (db : Admins) (now : Z) (req : Request),
    hash_in_response (get_profile decode config db now req) = None.
Proof.
  intros decode config db now req. unfold get_profile.
  destruct (protect decode config db now req) as [st msg | req'] eqn:Hp;
    [reflexivity |].
  destruct (req_admin req') as [a |] eqn:Ha; [| reflexivity].
  destruct (protect_next_inv decode config db now req req' Hp)
    as (b & _ & _ & ->).
  simpl in Ha. injection Ha as <-. reflexivity.
Qed.

(** C10, where the code departs from it.  [PUT /profile] loads the admin
    again with a plain [findById] and answers with the saved document: the
    response of a valid request carries the stored password hash. *)
Theorem put_profile_returns_password_hash :
  fst (put_profile Fixture.isEmail Fixture.isMobilePhone Fixture.decode
         default_config Fixture.admins 2000
         (Fixture.with_header "Bearer token-a1")
         (mkProfileBody (Some "Alicia") None None None None None))
  = ProfileUpdated
      (mkAdmin "a1" "Alicia" "Stone" "alice@jobportal.com"
               (Some "$2a$12$wonderland") admin true ["manage_jobs"]
               None None None None)
  /\ hash_in_response
       (fst (put_profile Fixture.isEmail Fixture.isMobilePhone Fixture.decode
               default_config Fixture.admins 2000
               (Fixture.with_header "Bearer token-a1")
               (mkProfileBody (Some "Alicia") None None None None None)))
     = password Fixture.alice.
Proof. split; reflexivity. Qed.

(** Every successful [PUT /profile] answers with the password field of a
    stored admin, as it is stored. *)
Lemma put_profile_carries_stored_hash :
  forall (isEmail isMobilePhone : string -> bool)
         (decode : string -> option Jwt.Token) (config : Config)
         (db : Admins) (now : Z) (req : Request) (b : ProfileBody)
         (data : Admin),
    fst (put_profile isEmail isMobilePhone decode config db now req b)
      = ProfileUpdated data ->
    exists a, In a db /\ password data = password a.
Proof.
  intros isEmail isMobilePhone decode config db now req b data.
  unfold put_profile.
  destruct (protect decode config db now req) as [st msg | req'];
    [discriminate |].
  destruct (profile_validation isEmail isMobilePhone b); [| discriminate].
  destruct (req_admin req') as [me |]; [| discriminate].
  destruct (findById db (_id me)) as [a |] eqn:Hf; [| discriminate].
  destruct (email_taken db (apply_profile b a)); [discriminate |].
  simpl fst. intros H. injection H as <-.
  exists a. split; [| reflexivity].
  unfold findById in Hf. apply find_some in Hf. tauto.
Qed.

(** ** The model on concrete requests *)

Example bearer_examples :
  bearer (Fixture.with_header "Bearer token-a1") = BearerToken "token-a1"
  /\ bearer (Fixture.with_header "Bearer") = NoToken
  /\ bearer (Fixture.with_header "Bearer ") = NoToken
  /\ bearer (Fixture.with_header "Basic dXNlcg==") = NoBearer
  /\ bearer (mkRequest None None) = NoBearer.
Proof. repeat split; reflexivity. Qed.

Example protect_examples :
  protect Fixture.decode default_config Fixture.admins 2000
          (Fixture.with_header "Bearer token-a1")
  = Next (attach (Fixture.with_header "Bearer token-a1")
                 (select_minus_password Fixture.alice))
  /\ protect Fixture.decode default_config Fixture.admins (1000 + 604800)
             (Fixture.with_header "Bearer token-a1")
     = Respond 401 "Token has expired"
  /\ protect Fixture.decode default_config Fixture.admins 2000
             (Fixture.with_header "Bearer not-a-token")
     = Respond 401 "Invalid token"
  /\ protect Fixture.decode default_config [Fixture.root] 2000
             (Fixture.with_header "Bearer token-a1")
     = Respond 401 "Admin not found"
  /\ protect Fixture.decode default_config Fixture.admins 2000
             (mkRequest None None)
     = Respond 401 "Authorization header with Bearer token is required".
Proof. repeat split; reflexivity. Qed.

Example optionalAuth_examples :
  optionalAuth Fixture.decode default_config Fixture.admins 2000
               (Fixture.with_header "Bearer token-a1")
  = Next (attach (Fixture.with_header "Bearer token-a1")
                 (select_minus_password Fixture.alice))
  /\ optionalAuth Fixture.decode default_config Fixture.admins 2000
                  (Fixture.with_header "Bearer token-a2")
     = Next (Fixture.with_header "Bearer token-a2")
  /\ optionalAuth Fixture.decode default_config Fixture.admins (1000 + 604800)
                  (Fixture.with_header "Bearer token-a1")
     = Next (Fixture.with_header "Bearer token-a1")
  /\ optionalAuth Fixture.decode default_config Fixture.admins 2000
                  (mkRequest None None)
     = Next (mkRequest None None).
Proof. repeat split; reflexivity. Qed.

Example stats_example :
  exists report,
    fst (Dashboard.stats DashFixture.db) = Dashboard.Stats report
    /\ Dashboard.overview_totalUsers report = 12
    /\ Dashboard.overview_totalJobs report = 0
    /\ Dashboard.active_jobs report = 3
    /\ Dashboard.recent_jobs report = []
    /\ Dashboard.recent_users report = ["doc"]
    /\ Dashboard.analytics_userRoles report = [].
Proof. eexists. repeat split; reflexivity. Qed.

Example bulk_update_example :
  bulk_update CatFixture.castBoolean CatFixture.castNumber
    CatFixture.categories
    (mkBulkBody (Some ["c2"; "unknown"])
                (Some [("isFeatured", JBool true); ("sortOrder", JNum 1)]))
  = (CatBulkUpdated 1 1,
     [CatFixture.cat "c1" "Design" 3;
      mkCategory "c2" "Engineering"
                 "A category of the job board, for listing." true true 1
                 None 0 1;
      CatFixture.cat "c3" "Finance" 2; CatFixture.cat "c4" "Legal" 5;
      CatFixture.cat "c5" "Sales" 4]).
Proof. reflexivity. Qed.

(* ================================================================= *)
(** * Further properties of the modelled code *)

(** ** Look-ups and saves in the admins collection *)

Lemma findById_In (db : Admins) (id : string) (a : Admin) :
  findById db id = Some a -> In a db /\ _id a = id.
Proof.
  unfold findById. intros H. apply find_some in H.
  destruct H as [Hin Heq]. apply String.eqb_eq in Heq. auto.
Qed.

Lemma findById_unique (db : Admins) (a : Admin) :
  NoDup (map _id db) -> In a db -> findById db (_id a) = Some a.
Proof.
  unfold findById. induction db as [| b rest IH]; intros Hnd Hin.
  - contradiction.
  - simpl. inversion Hnd as [| x l Hnotin Hnd']; subst.
    destruct Hin as [-> | Hin].
    + now rewrite String.eqb_refl.
    + destruct (String.eqb (_id b) (_id a)) eqn:E.
      * apply String.eqb_eq in E. exfalso. apply Hnotin. rewrite E.
        now apply in_map.
      * now apply IH.
Qed.

Lemma findById_save (db : Admins) (a : Admin) :
  (exists b, In b db /\ _id b = _id a) ->
  findById (save db a) (_id a) = Some a.
Proof.
  unfold findById. induction db as [| c rest IH]; intros (b & Hin & Hid).
  - contradiction.
  - simpl. destruct (String.eqb (_id c) (_id a)) eqn:E.
    + simpl. now rewrite String.eqb_refl.
    + simpl. rewrite E. apply IH. destruct Hin as [-> | Hin].
      * rewrite Hid, String.eqb_refl in E. discriminate.
      * eauto.
Qed.

Lemma In_save (db : Admins) (a x : Admin) :
  In x (save db a) -> In x db \/ x = a.
Proof.
  induction db as [| c rest IH]; simpl; [tauto |].
  destruct (String.eqb (_id c) (_id a)); simpl; intros [H | H]; auto.
  destruct (IH H); auto.
Qed.

(** Saving a document changes nothing that the saved document and the
    stored one agree on. *)
Lemma map_save {B : Type} (f : Admin -> B) (db : Admins) (a a' : Admin) :
  NoDup (map _id db) -> In a db -> _id a' = _id a -> f a' = f a ->
  map f (save db a') = map f db.
Proof.
  induction db as [| c rest IH]; intros Hnd Hin Hid Hf; [contradiction |].
  simpl. inversion Hnd as [| x l Hnotin Hnd']; subst.
  destruct (String.eqb (_id c) (_id a')) eqn:E.
  - simpl. f_equal. apply String.eqb_eq in E.
    destruct Hin as [-> | Hin]; [assumption |].
    exfalso. apply Hnotin. rewrite E, Hid. now apply in_map.
  - simpl. f_equal. apply IH; try assumption.
    destruct Hin as [-> | Hin]; [| assumption].
    rewrite Hid, String.eqb_refl in E. discriminate.
Qed.

Lemma resolves_functional (decode : string -> option Jwt.Token)
  (config : Config) (db : Admins) (now : Z) (req : Request) (a b : Admin) :
  resolves decode config db now req a ->
  resolves decode config db now req b -> a = b.
Proof.
  intros (t & d & i & Hb & Hv & Hi & Hf) (t' & d' & i' & Hb' & Hv' & Hi' & Hf').
  rewrite Hb in Hb'. injection Hb' as <-.
  rewrite Hv in Hv'. injection Hv' as <-.
  rewrite Hi in Hi'. injection Hi' as <-.
  rewrite Hf in Hf'. now injection Hf'.
Qed.

Lemma protect_passes (decode : string -> option Jwt.Token) (config : Config)
  (db : Admins) (now : Z) (req : Request) (a : Admin) :
  Forall (fun a => _id a <> "") db ->
  resolves decode config db now req a -> isActive a = true ->
  protect decode config db now req = Next (attach req (select_minus_password a)).
Proof.
  intros Hne (t & d & i & Hb & Hv & Hi & Hf) Ha.
  destruct (findById_In db i a Hf) as [Hin Hid].
  rewrite Forall_forall in Hne. specialize (Hne a Hin). rewrite Hid in Hne.
  apply truthy_nonempty in Hne.
  unfold protect. rewrite Hb, Hv, Hi, Hne, Hf. simpl.
  now rewrite Ha.
Qed.

Lemma protect_status (decode : string -> option Jwt.Token) (config : Config)
  (db : Admins) (now : Z) (req : Request) (status : Z) (message : string) :
  protect decode config db now req = Respond status message ->
  status = 401 \/ status = 500.
Proof.
  unfold protect.
  destruct (bearer req) as [| | token]; try (intros H; injection H; auto).
  destruct (Jwt.verify (decode token) (JWT_SECRET config) now) as [d | e].
  - destruct (Jwt.id d) as [i |]; [| intros H; injection H; auto].
    destruct (negb (Js.truthy i)); [intros H; injection H; auto |].
    destruct (option_map select_minus_password (findById db i)) as [a |];
      [| intros H; injection H; auto].
    destruct (negb (isActive a)); [intros H; injection H; auto | discriminate].
  - destruct e; intros H; injection H; auto.
Qed.

(** ** Roles and permissions behind [protect] *)


(** Behind [protect, checkPermission(p)] the handler runs exactly for a
    request whose token resolves to an active admin holding [p] (or being
    super_admin), with that admin attached; the answer is 403 exactly when
    the token resolves to an active admin that lacks [p]. *)
Theorem guarded_reaches_handler_iff :
  forall (decode : string -> option Jwt.Token) (config : Config)
         (permission : string) (db : Admins) (now : Z) (req : Request),
    Forall (fun a => _id a <> "") db ->
    (forall req',
       guarded decode config permission db now req = Next req'
       <-> exists a, resolves decode config db now req a
                     /\ isActive a = true
                     /\ hasPermission a permission = true
                     /\ req' = attach req (select_minus_password a))
    /\
    (rejected 403 (guarded decode config permission db now req)
     <-> exists a, resolves decode config db now req a
                   /\ isActive a = true
                   /\ hasPermission a permission = false).
Proof.
  intros decode config permission db now req Hne.
  unfold guarded, chain, rejected.
  destruct (protect decode config db now req) as [st msg | req1] eqn:Hp.
  - split.
    + intros req'. split; [discriminate |].
      intros (a & Hr & Ha & _ & _).
      rewrite (protect_passes decode config db now req a Hne Hr Ha) in Hp.
      discriminate.
    + split.
      * intros (m & H). injection H as H _.
        destruct (protect_status decode config db now req st msg Hp); lia.
      * intros (a & Hr & Ha & _).
        rewrite (protect_passes decode config db now req a Hne Hr Ha) in Hp.
        discriminate.
  - destruct (protect_next_inv decode config db now req req1 Hp)
      as (a & Hr & Ha & ->).
    unfold checkPermission. cbn [req_admin attach].
    change (hasPermission (select_minus_password a) permission)
      with (hasPermission a permission).
    destruct (hasPermission a permission) eqn:Hh; simpl; split.
    + intros req'. split.
      * intros H. injection H as <-. exists a. auto.
      * intros (b & Hrb & _ & _ & ->).
        now rewrite (resolves_functional decode config db now req a b Hr Hrb).
    + split; [intros (m & H); discriminate |].
      intros (b & Hrb & _ & Hb).
      rewrite (resolves_functional decode config db now req a b Hr Hrb) in Hh.
      congruence.
    + intros req'. split; [discriminate |].
      intros (b & Hrb & _ & Hb & _).
      rewrite (resolves_functional decode config db now req a b Hr Hrb) in Hh.
      congruence.
    + split; [| intros _; eexists; reflexivity].
      intros _. exists a. auto.
Qed.

(** On the fixture: alice holds [manage_jobs] and nothing else. *)
Lemma guarded_reaches_handler_iff_witness :
  Forall (fun a => _id a <> "") Fixture.admins
  /\ guarded Fixture.decode default_config "manage_jobs" Fixture.admins 2000
             (Fixture.with_header "Bearer token-a1")
     = Next (attach (Fixture.with_header "Bearer token-a1")
                    (select_minus_password Fixture.alice))
  /\ rejected 403 (guarded Fixture.decode default_config "manage_faqs"
                           Fixture.admins 2000
                           (Fixture.with_header "Bearer token-a1")).
Proof.
  assert (Hne : Forall (fun a => _id a <> "") Fixture.admins)
    by (repeat constructor; discriminate).
  assert (Hr : resolves Fixture.decode default_config Fixture.admins 2000
                 (Fixture.with_header "Bearer token-a1") Fixture.alice).
  { exists "token-a1", (Jwt.payload (Fixture.issued "a1")), "a1".
    repeat split. }
  split; [exact Hne | split].
  - apply (proj1 (guarded_reaches_handler_iff Fixture.decode default_config
                    "manage_jobs" Fixture.admins 2000
                    (Fixture.with_header "Bearer token-a1") Hne)).
    exists Fixture.alice. repeat split. exact Hr.
  - apply (proj2 (guarded_reaches_handler_iff Fixture.decode default_config
                    "manage_faqs" Fixture.admins 2000
                    (Fixture.with_header "Bearer token-a1") Hne)).
    exists Fixture.alice. repeat split. exact Hr.
Defined.

(** ** Tokens *)

Lemma verify_fresh_token (config : Config) (id : string) (now later : Z) :
  Jwt.verify (Some (generateToken config now id)) (JWT_SECRET config) later
  = if now + JWT_EXPIRE config <=? later
    then Jwt.Threw Jwt.TokenExpiredError
    else Jwt.Decoded (Jwt.payload (generateToken config now id)).
Proof.
  unfold generateToken, Jwt.verify.
  rewrite sign_signature_valid. reflexivity.
Qed.

Lemma verifies_to_fresh (config : Config) (id : string) (now later : Z) :
  verifies_to (generateToken config now id) config later id
  <-> later < now + JWT_EXPIRE config.
Proof.
  unfold verifies_to. rewrite verify_fresh_token.
  destruct (Z.leb_spec (now + JWT_EXPIRE config) later) as [H | H]; split.
  - intros (d & Hd & _). discriminate.
  - lia.
  - intros _. assumption.
  - intros _. eexists. split; reflexivity.
Qed.

(** A token signed under another secret, and a token whose subject was
    replaced after signing, are both answered 401 'Invalid token' by
    [protect], at every clock reading and over every collection. *)
Theorem forged_tokens_rejected :
  forall (decode : string -> option Jwt.Token) (config other : Config)
         (db : Admins) (issued now : Z) (req : Request) (s id id' : string),
    bearer req = BearerToken s ->
    (JWT_SECRET other <> JWT_SECRET config ->
     decode s = Some (generateToken other issued id) ->
     protect decode config db now req = Respond 401 "Invalid token")
    /\
    (id' <> id ->
     decode s = Some (with_subject (generateToken config issued id) id') ->
     protect decode config db now req = Respond 401 "Invalid token").
Proof.
  intros decode config other db issued now req s id id' Hb.
  unfold protect. rewrite Hb. split.
  - intros Hs Hd. rewrite Hd. unfold Jwt.verify.
    assert (E : Jwt.signature_valid (JWT_SECRET config)
                  (generateToken other issued id) = false).
    { unfold Jwt.signature_valid, generateToken, Jwt.sign. cbn.
      apply String.eqb_neq in Hs. now rewrite Hs. }
    now rewrite E.
  - intros Hid Hd. rewrite Hd. unfold Jwt.verify.
    assert (E : Jwt.signature_valid (JWT_SECRET config)
                  (with_subject (generateToken config issued id) id') = false).
    { unfold Jwt.signature_valid, with_subject, generateToken, Jwt.sign,
        Jwt.payload_eqb. cbn.
      assert (Hne : String.eqb id id' = false)
        by (apply String.eqb_neq; congruence).
      rewrite Hne. now rewrite String.eqb_refl. }
    now rewrite E.
Qed.

(** On the fixture: the same subject under a guessed secret. *)
Lemma forged_tokens_rejected_witness :
  protect (fun _ => Some (generateToken (mkConfig "guess" 604800) 1000 "a0"))
          default_config Fixture.admins 2000
          (Fixture.with_header "Bearer anything")
  = Respond 401 "Invalid token".
Proof.
  apply (proj1 (forged_tokens_rejected
                  (fun _ => Some (generateToken (mkConfig "guess" 604800) 1000 "a0"))
                  default_config (mkConfig "guess" 604800) Fixture.admins
                  1000 2000 (Fixture.with_header "Bearer anything")
                  "anything" "a0" "a0" eq_refl)).
  - discriminate.
  - reflexivity.
Defined.

(** Two tokens issued for the same id at different clock readings are
    different tokens, and each verifies to the id exactly until its own
    expiry. *)
Theorem tokens_issued_apart :
  forall (config : Config) (id : string) (now1 now2 : Z),
    now1 <> now2 ->
    generateToken config now1 id <> generateToken config now2 id
    /\ (forall later,
          verifies_to (generateToken config now1 id) config later id
          <-> later < now1 + JWT_EXPIRE config)
    /\ (forall later,
          verifies_to (generateToken config now2 id) config later id
          <-> later < now2 + JWT_EXPIRE config).
Proof.
  intros config id now1 now2 Hne. split; [| split].
  - unfold generateToken, Jwt.sign. intros H. injection H. intros. contradiction.
  - intros later. apply verifies_to_fresh.
  - intros later. apply verifies_to_fresh.
Qed.

(** Under the default configuration: issued a day apart, the first token
    has expired while the second still verifies. *)
Lemma tokens_issued_apart_witness :
  generateToken default_config 1000 "a1" <> generateToken default_config 87400 "a1"
  /\ ~ verifies_to (generateToken default_config 1000 "a1") default_config
         650000 "a1"
  /\ verifies_to (generateToken default_config 87400 "a1") default_config
       650000 "a1".
Proof.
  destruct (tokens_issued_apart default_config "a1" 1000 87400
              ltac:(discriminate)) as (Hd & H1 & H2).
  split; [exact Hd | split].
  - intros H. apply H1 in H. simpl in H. lia.
  - apply H2. simpl. lia.
Defined.

(** ** Login and the collection *)



(** The token of a successful login, sent back as a Bearer token before it
    expires, passes [protect] over the collection the login left, and the
    admin attached is the one the login response describes, without its
    password. *)
Theorem login_token_passes_protect :
  forall (isEmail : string -> bool) (bcrypt_compare : string -> string -> bool)
         (decode : string -> option Jwt.Token) (config : Config)
         (db db' : Admins) (now later : Z) (b : LoginBody)
         (token : Jwt.Token) (who : AdminSummary) (req : Request) (s : string),
    Forall (fun a => _id a <> "") db ->
    login isEmail bcrypt_compare config db now b = (LoginSuccess token who, db') ->
    bearer req = BearerToken s ->
    decode s = Some token ->
    later < now + JWT_EXPIRE config ->
    exists a,
      protect decode config db' later req = Next (attach req a)
      /\ summary a = who
      /\ password a = None.
Proof.
  intros isEmail bcrypt_compare decode config db db' now later b token who
         req s Hne. unfold login.
  destruct (login_validation isEmail b); [| discriminate].
  destruct (lb_email b) as [e |]; [| discriminate].
  destruct (lb_password b) as [pw |]; [| discriminate].
  destruct (findOne_email db e) as [a |] eqn:Hf; [| discriminate].
  destruct (isActive a) eqn:Ha; simpl negb; cbv iota; [| discriminate].
  destruct (password a) as [hash |]; [| discriminate].
  destruct (negb (bcrypt_compare pw hash)); [discriminate |].
  intros H Hb Hd Hlater. injection H as <- <- <-.
  destruct (findOne_email_In db e a Hf) as [Hin _].
  exists (select_minus_password (set_lastLogin (Some now) a)).
  split; [| split; reflexivity].
  unfold protect. rewrite Hb, Hd, verify_fresh_token.
  destruct (Z.leb_spec (now + JWT_EXPIRE config) later) as [Hle | _]; [lia |].
  cbn [generateToken Jwt.sign Jwt.payload Jwt.id set_lastLogin _id].
  rewrite Forall_forall in Hne. pose proof (Hne a Hin) as Hid.
  apply truthy_nonempty in Hid. rewrite Hid. simpl negb. cbv iota.
  pose proof (findById_save db (set_lastLogin (Some now) a)
                (ex_intro _ a (conj Hin eq_refl))) as Hfs.
  cbn [set_lastLogin _id] in Hfs. rewrite Hfs. simpl. now rewrite Ha.
Qed.

(** On the fixture: alice logs in at 2000 and calls back at 3000. *)
Lemma login_token_passes_protect_witness :
  exists a,
    protect (fun _ => Some (generateToken default_config 2000 "a1"))
            default_config
            (snd (login Fixture.isEmail Fixture.bcrypt_compare default_config
                    Fixture.admins 2000
                    (mkLoginBody (Some "alice@jobportal.com") (Some "wonderland"))))
            3000 (Fixture.with_header "Bearer fresh")
    = Next (attach (Fixture.with_header "Bearer fresh") a)
    /\ summary a = summary (set_lastLogin (Some 2000) Fixture.alice)
    /\ password a = None.
Proof.
  apply (login_token_passes_protect Fixture.isEmail Fixture.bcrypt_compare
           (fun _ => Some (generateToken default_config 2000 "a1"))
           default_config Fixture.admins
           (snd (login Fixture.isEmail Fixture.bcrypt_compare default_config
                   Fixture.admins 2000
                   (mkLoginBody (Some "alice@jobportal.com") (Some "wonderland"))))
           2000 3000
           (mkLoginBody (Some "alice@jobportal.com") (Some "wonderland"))
           (generateToken default_config 2000 "a1")
           (summary (set_lastLogin (Some 2000) Fixture.alice))
           (Fixture.with_header "Bearer fresh") "fresh").
  - repeat constructor; discriminate.
  - reflexivity.
  - reflexivity.
  - reflexivity.
  - reflexivity.
Defined.

(** ** Refresh, change of password, profile update *)

Lemma protect_reloads (decode : string -> option Jwt.Token) (config : Config)
  (db : Admins) (now : Z) (req req' : Request) :
  protect decode config db now req = Next req' ->
  exists a, resolves decode config db now req a
            /\ In a db /\ isActive a = true
            /\ req_admin req' = Some (select_minus_password a)
            /\ findById db (_id (select_minus_password a)) = Some a.
Proof.
  intros Hp.
  destruct (protect_next_inv decode config db now req req' Hp)
    as (a & Hr & Ha & ->).
  exists a. pose proof Hr as (t & d & i & _ & _ & _ & Hf).
  destruct (findById_In db i a Hf) as [Hin Hid].
  repeat split; try assumption.
  change (_id (select_minus_password a)) with (_id a). now rewrite Hid.
Qed.

(** Whenever [protect] lets a request through, [POST /refresh] answers
    with a new token for that admin (its own 401 never fires), and the new
    token verifies to the admin exactly until the configured span after the
    refresh. *)
Theorem refresh_extends_session :
  forall (decode : string -> option Jwt.Token) (config : Config)
         (db : Admins) (now : Z) (req req' : Request),
    protect decode config db now req = Next req' ->
    exists a,
      resolves decode config db now req a
      /\ refresh decode config db now req
         = Refreshed (generateToken config now (_id a)) (summary a)
      /\ forall later,
           verifies_to (generateToken config now (_id a)) config later (_id a)
           <-> later < now + JWT_EXPIRE config.
Proof.
  intros decode config db now req req' Hp.
  destruct (protect_reloads decode config db now req req' Hp)
    as (a & Hr & Hin & Ha & Hreq & Hf).
  exists a. split; [assumption | split].
  - unfold refresh. rewrite Hp, Hreq, Hf, Ha. reflexivity.
  - intros later. apply verifies_to_fresh.
Qed.

(** On the fixture: alice refreshes at 500000, before her token of 1000
    expires; the new token still verifies after the old one has expired. *)
Lemma refresh_extends_session_witness :
  refresh Fixture.decode default_config Fixture.admins 500000
          (Fixture.with_header "Bearer token-a1")
  = Refreshed (generateToken default_config 500000 "a1") (summary Fixture.alice)
  /\ verifies_to (generateToken default_config 500000 "a1") default_config
       700000 "a1"
  /\ ~ verifies_to (Fixture.issued "a1") default_config 700000 "a1".
Proof.
  destruct (refresh_extends_session Fixture.decode default_config Fixture.admins
              500000 (Fixture.with_header "Bearer token-a1")
              (attach (Fixture.with_header "Bearer token-a1")
                      (select_minus_password Fixture.alice)) eq_refl)
    as (a & Hr & Href & Hv).
  assert (Ha : a = Fixture.alice).
  { apply (resolves_functional Fixture.decode default_config Fixture.admins
             500000 (Fixture.with_header "Bearer token-a1")); [exact Hr |].
    exists "token-a1", (Jwt.payload (Fixture.issued "a1")), "a1".
    repeat split. }
  subst a. split; [exact Href | split].
  - apply Hv. simpl. lia.
  - intros H. apply (verifies_to_fresh default_config "a1" 1000 700000) in H.
    simpl in H. lia.
Defined.



(** After [PUT /change-password] answered 'Password changed', the caller
    logs in with the new password (a hash compares equal to the password it
    was made from; the new password is not the stored hash itself, which
    the save would see as no change). *)
Theorem changed_password_logs_in :
  forall (isEmail : string -> bool) (bcrypt_compare : string -> string -> bool)
         (bcrypt_hash : string -> string -> string)
         (decode : string -> option Jwt.Token) (config : Config)
         (db db' : Admins) (now later : Z) (salt : string) (req : Request)
         (b : PasswordBody) (new : string) (a : Admin),
    well_kept db -> NoDup (map _id db) ->
    (forall pw, bcrypt_compare pw (bcrypt_hash pw salt) = true) ->
    change_password bcrypt_compare bcrypt_hash decode config db now salt req b
      = (PasswordChanged, db') ->
    newPassword b = Some new ->
    resolves decode config db now req a ->
    password a <> Some new ->
    isEmail (email a) = true ->
    authenticated
      (login_response isEmail bcrypt_compare config db' later (email a) new).
Proof.
  intros isEmail bcrypt_compare bcrypt_hash decode config db db' now later
         salt req b new a Hk Hnd Hlib Hcp Hnew Hr Hneq Hmail.
  unfold change_password in Hcp.
  destruct (protect decode config db now req) as [st msg | req'] eqn:Hp;
    [discriminate |].
  destruct (protect_reloads decode config db now req req' Hp)
    as (a0 & Hr0 & Hin & Ha & Hreq & Hf).
  rewrite (resolves_functional decode config db now req a0 a Hr0 Hr) in *.
  clear a0 Hr0.
  destruct (password_validation b) eqn:Hv; [| discriminate].
  rewrite Hreq, Hnew in Hcp.
  destruct (currentPassword b) as [current |] eqn:Hcur; [| discriminate].
  rewrite Hf in Hcp.
  destruct (password a) as [hash |] eqn:Hpw; [| discriminate].
  destruct (negb (bcrypt_compare current hash)); [discriminate |].
  injection Hcp as <-.
  assert (Hlen : (6 <=? str_length new) = true).
  { unfold password_validation in Hv. rewrite Hcur, Hnew in Hv.
    unfold required, check in Hv.
    destruct (Js.truthy current); [| discriminate].
    destruct (6 <=? str_length new); [reflexivity | discriminate]. }
  assert (Hassign : assign_password bcrypt_hash salt new a
                    = set_password (Some (bcrypt_hash new salt)) a).
  { unfold assign_password. rewrite Hpw.
    destruct (String.eqb hash new) eqn:E; [| reflexivity].
    apply String.eqb_eq in E. congruence. }
  rewrite Hassign.
  set (a' := set_password (Some (bcrypt_hash new salt)) a).
  assert (Hin' : In a' (save db a')).
  { pose proof (findById_save db a' (ex_intro _ a (conj Hin eq_refl))) as H.
    apply findById_In in H. tauto. }
  destruct Hk as (Hemails & Hset & _).
  assert (Hemails' : NoDup (map email (save db a'))).
  { rewrite (map_save email db a a' Hnd Hin eq_refl eq_refl). assumption. }
  rewrite Forall_forall in Hset.
  assert (Hfind : findOne_email (save db a') (email a) = Some a').
  { apply findOne_email_unique; [assumption | assumption |].
    exact (Hset a Hin). }
  unfold login_response, login, login_validation, required, check.
  cbn [lb_email lb_password]. rewrite Hmail, Hlen. cbn [app].
  rewrite Hfind. change (isActive a') with (isActive a). rewrite Ha.
  simpl negb. cbv iota. cbn [a' set_password password].
  rewrite Hlib. simpl. unfold authenticated. eauto.
Qed.

(** On the fixture: alice changes her password, then logs in with it. *)
Lemma changed_password_logs_in_witness :
  authenticated
    (login_response Fixture.isEmail Fixture.bcrypt_compare default_config
       (snd (change_password Fixture.bcrypt_compare Fixture2.bcrypt_hash
               Fixture.decode default_config Fixture.admins 2000 "salt"
               (Fixture.with_header "Bearer token-a1")
               (mkPasswordBody (Some "wonderland") (Some "looking-glass"))))
       3000 "alice@jobportal.com" "looking-glass").
Proof.
  apply (changed_password_logs_in Fixture.isEmail Fixture.bcrypt_compare
           Fixture2.bcrypt_hash Fixture.decode default_config Fixture.admins
           _ 2000 3000 "salt" (Fixture.with_header "Bearer token-a1")
           (mkPasswordBody (Some "wonderland") (Some "looking-glass"))
           "looking-glass" Fixture.alice).
  - exact fixture_admins_well_kept.
  - simpl. repeat constructor; simpl; intuition discriminate.
  - intros pw. unfold Fixture.bcrypt_compare, Fixture2.bcrypt_hash.
    apply String.eqb_refl.
  - reflexivity.
  - reflexivity.
  - exists "token-a1", (Jwt.payload (Fixture.issued "a1")), "a1". repeat split.
  - discriminate.
  - reflexivity.
Defined.

(** [PUT /profile] cannot change anyone's id, role, active flag,
    permissions or password, whatever the body and whatever it answers. *)
Theorem put_profile_keeps_privileges :
  forall (isEmail isMobilePhone : string -> bool)
         (decode : string -> option Jwt.Token) (config : Config)
         (db : Admins) (now : Z) (req : Request) (b : ProfileBody),
    NoDup (map _id db) ->
    map privileges
        (snd (put_profile isEmail isMobilePhone decode config db now req b))
    = map privileges db.
Proof.
  intros isEmail isMobilePhone decode config db now req b Hnd.
  unfold put_profile.
  destruct (protect decode config db now req) as [st msg | req'];
    [reflexivity |].
  destruct (profile_validation isEmail isMobilePhone b); [| reflexivity].
  destruct (req_admin req') as [me |]; [| reflexivity].
  destruct (findById db (_id me)) as [a |] eqn:Hf; [| reflexivity].
  destruct (email_taken db (apply_profile b a)); [reflexivity |].
  destruct (findById_In db (_id me) a Hf) as [Hin _].
  simpl snd. apply (map_save privileges db a (apply_profile b a) Hnd Hin);
    reflexivity.
Qed.

(** On the fixture: alice renames herself and changes her address. *)
Lemma put_profile_keeps_privileges_witness :
  NoDup (map _id Fixture.admins)
  /\ fst (put_profile Fixture.isEmail Fixture.isMobilePhone Fixture.decode
            default_config Fixture.admins 2000
            (Fixture.with_header "Bearer token-a1")
            (mkProfileBody (Some "Alicia") None (Some "Alicia@JobPortal.com")
                           None None None))
     = ProfileUpdated
         (mkAdmin "a1" "Alicia" "Stone" "alicia@jobportal.com"
                  (Some "$2a$12$wonderland") admin true ["manage_jobs"]
                  None None None None)
  /\ map privileges
         (snd (put_profile Fixture.isEmail Fixture.isMobilePhone Fixture.decode
                 default_config Fixture.admins 2000
                 (Fixture.with_header "Bearer token-a1")
                 (mkProfileBody (Some "Alicia") None
                                (Some "Alicia@JobPortal.com") None None None)))
     = map privileges Fixture.admins.
Proof.
  assert (Hnd : NoDup (map _id Fixture.admins)).
  { simpl. repeat constructor; simpl; intuition discriminate. }
  split; [exact Hnd | split; [reflexivity |]].
  exact (put_profile_keeps_privileges Fixture.isEmail Fixture.isMobilePhone
           Fixture.decode default_config Fixture.admins 2000
           (Fixture.with_header "Bearer token-a1")
           (mkProfileBody (Some "Alicia") None (Some "Alicia@JobPortal.com")
                          None None None) Hnd).
Defined.

Lemma save_keeps_emails_unique (db : Admins) (u : Admin) :
  NoDup (map _id db) -> NoDup (map email db) ->
  email_taken db u = false ->
  NoDup (map email (save db u)).
Proof.
  intros Hids Hemails Htaken.
  assert (Hown : forall c, In c db -> email c = email u -> _id c = _id u).
  { intros c Hc He. unfold email_taken in Htaken.
    destruct (String.eqb (_id c) (_id u)) eqn:E;
      [now apply String.eqb_eq in E |].
    assert (Hex : existsb (fun b => String.eqb (email b) (email u)
                                    && negb (String.eqb (_id b) (_id u))) db
                  = true).
    { apply existsb_exists. exists c. split; [assumption |].
      now rewrite He, String.eqb_refl, E. }
    congruence. }
  clear Htaken.
  induction db as [| b rest IH]; [constructor |].
  simpl in Hids, Hemails.
  inversion Hids as [| x l Hidb Hids']; subst.
  inversion Hemails as [| x l Hemb Hemails']; subst.
  simpl. destruct (String.eqb (_id b) (_id u)) eqn:E.
  - apply String.eqb_eq in E. simpl. constructor; [| assumption].
    intros Hin. apply in_map_iff in Hin. destruct Hin as (c & He & Hc).
    apply Hidb. rewrite E, <- (Hown c (or_intror Hc) He). now apply in_map.
  - simpl. constructor.
    + intros Hin. apply in_map_iff in Hin. destruct Hin as (c & He & Hc).
      destruct (In_save rest u c Hc) as [Hc' | ->].
      * apply Hemb. rewrite <- He. now apply in_map.
      * rewrite (Hown b (or_introl eq_refl) (eq_sym He)), String.eqb_refl in E.
        discriminate.
    + apply IH; try assumption. intros c Hc. apply Hown. now right.
Qed.

(** [PUT /profile] keeps the addresses of the collection distinct: a new
    address that another admin holds is refused (500) and nothing is
    saved. *)
Theorem put_profile_keeps_emails_unique :
  forall (isEmail isMobilePhone : string -> bool)
         (decode : string -> option Jwt.Token) (config : Config)
         (db : Admins) (now : Z) (req : Request) (b : ProfileBody),
    NoDup (map _id db) -> NoDup (map email db) ->
    NoDup (map email
             (snd (put_profile isEmail isMobilePhone decode config db now req b))).
Proof.
  intros isEmail isMobilePhone decode config db now req b Hids Hemails.
  unfold put_profile.
  destruct (protect decode config db now req) as [st msg | req'];
    [assumption |].
  destruct (profile_validation isEmail isMobilePhone b); [| assumption].
  destruct (req_admin req') as [me |]; [| assumption].
  destruct (findById db (_id me)) as [a |]; [| assumption].
  destruct (email_taken db (apply_profile b a)) eqn:E; [assumption |].
  simpl snd. now apply save_keeps_emails_unique.
Qed.

(** On the fixture: alice asks for carol's address, in capitals. *)
Lemma put_profile_keeps_emails_unique_witness :
  put_profile Fixture.isEmail Fixture.isMobilePhone Fixture.decode
    default_config Fixture.admins 2000
    (Fixture.with_header "Bearer token-a1")
    (mkProfileBody None None (Some "CAROL@jobportal.com") None None None)
  = (Failure 500 "Server error", Fixture.admins)
  /\ NoDup (map email
              (snd (put_profile Fixture.isEmail Fixture.isMobilePhone
                      Fixture.decode default_config Fixture.admins 2000
                      (Fixture.with_header "Bearer token-a1")
                      (mkProfileBody None None (Some "CAROL@jobportal.com")
                                     None None None)))).
Proof.
  split; [reflexivity |].
  apply (put_profile_keeps_emails_unique Fixture.isEmail Fixture.isMobilePhone
           Fixture.decode default_config Fixture.admins 2000
           (Fixture.with_header "Bearer token-a1")
           (mkProfileBody None None (Some "CAROL@jobportal.com") None None None)).
  - simpl. repeat constructor; simpl; intuition discriminate.
  - simpl. repeat constructor; simpl; intuition discriminate.
Defined.

(** ** Category pages *)







Lemma In_insert_sorted (le : Category -> Category -> bool) (c x : Category)
  (l : list Category) :
  In x (insert_sorted le c l) -> x = c \/ In x l.
Proof.
  induction l as [| d rest IH]; simpl.
  - intros [H | H]; auto.
  - destruct (le c d); simpl; intros [H | H]; auto.
    destruct (IH H); auto.
Qed.

Lemma In_sort_by (le : Category -> Category -> bool) (x : Category)
  (l : list Category) :
  In x (sort_by le l) -> In x l.
Proof.
  induction l as [| c rest IH]; simpl; [tauto |].
  intros H. destruct (In_insert_sorted le c x (sort_by le rest) H); auto.
Qed.

Lemma In_slice {A : Type} (x : A) (a b : nat) (l : list A) :
  In x (firstn a (skipn b l)) -> In x l.
Proof.
  intros H. revert a b H. induction l as [| y l IH]; intros a b H.
  - rewrite skipn_nil, firstn_nil in H. contradiction.
  - destruct b as [| b].
    + destruct a as [| a]; simpl in H; [contradiction |].
      destruct H as [H | H]; [now left | right].
      apply (IH a 0%nat). exact H.
    + right. apply (IH a b). exact H.
Qed.

(** A list request never returns a document that is not in the collection
    or that its filter does not select. *)
Theorem page_documents_match :
  forall (regex_i : string -> string -> bool) (db : Categories)
         (q : ListQuery) (c : Category),
    In c (page_of regex_i db q) ->
    In c db /\ list_filter regex_i q c = true.
Proof.
  intros regex_i db q c. unfold page_of, list_categories.
  destruct (list_validation q); [| contradiction].
  intros H. apply In_slice, In_sort_by in H. now apply filter_In in H.
Qed.

(** On the fixture: a search for 'eng' returns Engineering, which matches. *)
Lemma page_documents_match_witness :
  page_of CatFixture.regex_i CatFixture.categories
          (mkListQuery None None (Some "eng") None None None None None)
  = [CatFixture.cat "c2" "Engineering" 1]
  /\ list_filter CatFixture.regex_i
       (mkListQuery None None (Some "eng") None None None None None)
       (CatFixture.cat "c2" "Engineering" 1) = true.
Proof.
  split; [reflexivity |].
  exact (proj2 (page_documents_match CatFixture.regex_i CatFixture.categories
                  (mkListQuery None None (Some "eng") None None None None None)
                  (CatFixture.cat "c2" "Engineering" 1)
                  (or_introl eq_refl))).
Defined.

Lemma field_leb_total (sortBy : string) (c d : Category) :
  field_leb sortBy c d = true \/ field_leb sortBy d c = true.
Proof.
  unfold field_leb.
  destruct (String.eqb sortBy "name"); [apply String.leb_total |].
  destruct (String.eqb sortBy "jobCount");
    [| destruct (String.eqb sortBy "createdAt")];
    rewrite !Z.leb_le; lia.
Qed.

Lemma list_order_total (q : ListQuery) (c d : Category) :
  list_order q c d = true \/ list_order q d c = true.
Proof.
  unfold list_order.
  destruct (String.eqb (or_default (q_sortOrder q) "asc") "asc").
  - apply field_leb_total.
  - destruct (field_leb_total (or_default (q_sortBy q) "sortOrder") c d); auto.
Qed.

Section SortedPages.

Variable le : Category -> Category -> bool.
Hypothesis le_total : forall c d, le c d = true \/ le d c = true.

Let R (c d : Category) : Prop := le c d = true.

Lemma insert_sorted_Sorted (c : Category) (l : list Category) :
  Sorted R l -> Sorted R (insert_sorted le c l).
Proof.
  induction l as [| d rest IH]; intros Hs; simpl.
  - repeat constructor.
  - destruct (le c d) eqn:E.
    + constructor; [assumption | constructor; exact E].
    + apply Sorted_inv in Hs. destruct Hs as [Hrest Hhd].
      constructor; [now apply IH |].
      destruct rest as [| r rest']; simpl.
      * constructor. unfold R. destruct (le_total c d); congruence.
      * destruct (le c r).
        -- constructor. unfold R. destruct (le_total c d); congruence.
        -- constructor. now apply HdRel_inv in Hhd.
Qed.

Lemma sort_by_Sorted (l : list Category) : Sorted R (sort_by le l).
Proof.
  induction l as [| c rest IH]; simpl; [constructor |].
  now apply insert_sorted_Sorted.
Qed.

Lemma Sorted_skipn (n : nat) (l : list Category) :
  Sorted R l -> Sorted R (skipn n l).
Proof.
  revert l. induction n as [| n IH]; intros l Hs; [assumption |].
  destruct l as [| x l]; [constructor |].
  simpl. apply IH. now apply Sorted_inv in Hs.
Qed.

Lemma Sorted_firstn (n : nat) (l : list Category) :
  Sorted R l -> Sorted R (firstn n l).
Proof.
  revert l. induction n as [| n IH]; intros l Hs; [constructor |].
  destruct l as [| x l]; [constructor |].
  apply Sorted_inv in Hs. destruct Hs as [Hl Hhd].
  simpl. constructor; [now apply IH |].
  destruct n as [| n]; [constructor |].
  destruct l as [| y l]; [constructor |].
  simpl. constructor. now apply HdRel_inv in Hhd.
Qed.

End SortedPages.

(** The documents of a page are in the order the request asks for: each
    one is in [sortBy]/[sortOrder] order with the next. *)
Theorem page_is_sorted :
  forall (regex_i : string -> string -> bool) (db : Categories)
         (q : ListQuery),
    Sorted (fun c d => list_order q c d = true) (page_of regex_i db q).
Proof.
  intros regex_i db q. unfold page_of, list_categories.
  destruct (list_validation q); [| constructor].
  apply Sorted_firstn, Sorted_skipn, sort_by_Sorted.
  apply list_order_total.
Qed.

(** [hasNextPage] is true exactly when matching documents remain beyond
    this page, and [hasPrevPage] exactly when the page is not the first. *)
Theorem pagination_flags :
  forall (regex_i : string -> string -> bool) (db : Categories)
         (q : ListQuery) (P L : Z) (data : list Category)
         (pagination : Pagination),
    q_page q = Some P -> q_limit q = Some L ->
    list_categories regex_i db q = CatList data pagination ->
    (hasNextPage pagination = true <-> P * L < totalItems pagination)
    /\ (hasPrevPage pagination = true <-> 1 < P)
    /\ itemsPerPage pagination = L.
Proof.
  intros regex_i db q P L data pagination HP HL.
  unfold list_categories, list_validation, paging_validation.
  rewrite HP, HL. cbn [optionalZ or_default].
  destruct (Z.leb_spec 1 P) as [HP1 | HP1]; [| discriminate].
  destruct (Z.leb_spec 1 L) as [HL1 | HL1]; [| discriminate].
  destruct (Z.leb_spec L 100) as [HL2 | HL2]; [| discriminate].
  cbn [andb check app].
  destruct (filter_validation q); [| discriminate].
  intros H. injection H as _ <-.
  cbn [hasNextPage hasPrevPage totalItems itemsPerPage].
  set (N := countDocuments db (list_filter regex_i q)).
  assert (HN : 0 <= N) by (unfold N, countDocuments; lia).
  pose proof (ceil_div_bounds N L HN ltac:(lia)) as Hc.
  rewrite !Z.ltb_lt. split; [| split; [reflexivity | reflexivity]].
  split; intros H; nia.
Qed.

(** On the fixture: page 2 of 2 out of five has a next and a previous
    page; page 3 has no next page. *)
Lemma pagination_flags_witness :
  (exists data pagination,
     list_categories CatFixture.regex_i CatFixture.categories
                     (CatFixture.page 2 2) = CatList data pagination
     /\ hasNextPage pagination = true /\ hasPrevPage pagination = true)
  /\ (exists data pagination,
        list_categories CatFixture.regex_i CatFixture.categories
                        (CatFixture.page 3 2) = CatList data pagination
        /\ hasNextPage pagination = false).
Proof.
  split.
  - eexists. eexists. split; [reflexivity |].
    destruct (pagination_flags CatFixture.regex_i CatFixture.categories
                (CatFixture.page 2 2) 2 2 _ _ eq_refl eq_refl eq_refl)
      as (Hn & Hp & _).
    split; [apply Hn | apply Hp]; vm_compute; reflexivity.
  - eexists. eexists. split; [reflexivity |].
    destruct (pagination_flags CatFixture.regex_i CatFixture.categories
                (CatFixture.page 3 2) 3 2 _ _ eq_refl eq_refl eq_refl)
      as (Hn & _).
    destruct (hasNextPage _) eqn:E in |- *; [| reflexivity].
    exfalso. apply Hn in E. vm_compute in E. discriminate.
Defined.

(** ** Bulk update, when the fields are allowed *)

Lemma category_eqb_true (c d : Category) : category_eqb c d = true -> c = d.
Proof.
  destruct c as [i1 n1 d1 a1 f1 s1 p1 j1 t1], d as [i2 n2 d2 a2 f2 s2 p2 j2 t2].
  unfold category_eqb. cbn. rewrite !andb_true_iff.
  intros [[[[[[[[Hi Hn] Hd] Ha] Hf] Hs] Hp] Hj] Ht].
  apply String.eqb_eq in Hi, Hn, Hd. apply Bool.eqb_prop in Ha, Hf.
  apply Z.eqb_eq in Hs, Hj, Ht.
  assert (p1 = p2).
  { destruct p1, p2; simpl in Hp; try discriminate; [| reflexivity].
    apply String.eqb_eq in Hp. now subst. }
  now subst.
Qed.

Lemma set_field_fixed (castBoolean : Json -> option bool)
  (castNumber : Json -> option Z) (c c' : Category) (kv : string * Json) :
  set_field castBoolean castNumber c kv = Some c' ->
  fixed_fields c' = fixed_fields c.
Proof.
  unfold set_field. destruct kv as [k v].
  destruct (String.eqb k "isActive");
    [destruct (castBoolean v); simpl; intros H; inversion H; reflexivity |].
  destruct (String.eqb k "isFeatured");
    [destruct (castBoolean v); simpl; intros H; inversion H; reflexivity |].
  destruct (String.eqb k "sortOrder");
    [destruct (castNumber v); simpl; intros H; inversion H; reflexivity |].
  intros H. now inversion H.
Qed.

Lemma set_fields_fixed (castBoolean : Json -> option bool)
  (castNumber : Json -> option Z) (ups : list (string * Json))
  (c c' : Category) :
  set_fields castBoolean castNumber c ups = Some c' ->
  fixed_fields c' = fixed_fields c.
Proof.
  revert c. induction ups as [| kv rest IH]; intros c; simpl.
  - intros H. now inversion H.
  - destruct (set_field castBoolean castNumber c kv) as [c1 |] eqn:E;
      [| discriminate].
    intros H. rewrite (IH c1 H).
    exact (set_field_fixed castBoolean castNumber c c1 kv E).
Qed.

Lemma updateMany_facts (castBoolean : Json -> option bool)
  (castNumber : Json -> option Z) (ids : list string)
  (ups : list (string * Json)) (db db' : Categories) (matched modified : Z) :
  updateMany castBoolean castNumber db ids ups = Some (db', matched, modified) ->
  matched = Z.of_nat (List.length
                        (filter (fun c => Js.includes ids (cat_id c)) db))
  /\ 0 <= modified <= matched
  /\ map fixed_fields db' = map fixed_fields db
  /\ (forall c, In c db -> Js.includes ids (cat_id c) = false -> In c db')
  /\ (modified = 0 -> db' = db).
Proof.
  revert db' matched modified.
  induction db as [| c rest IH]; intros db' matched modified; simpl.
  - intros H. inversion H. subst. simpl.
    split; [reflexivity | split; [lia | split; [reflexivity | split]]].
    + intros c Hc. contradiction.
    + reflexivity.
  - destruct (updateMany castBoolean castNumber rest ids ups)
      as [[[rest' m] n] |]; [| discriminate].
    destruct (IH rest' m n eq_refl) as (Hm & Hn & Hfix & Hout & Hzero).
    destruct (Js.includes ids (cat_id c)) eqn:Hinc.
    + destruct (set_fields castBoolean castNumber c ups) as [c' |] eqn:Hs;
        [| discriminate].
      intros H. inversion H. subst db' matched modified. clear H.
      simpl List.length. split; [lia |].
      destruct (category_eqb c c') eqn:Heq.
      * apply category_eqb_true in Heq. subst c'.
        split; [lia | split; [simpl; now rewrite Hfix | split]].
        -- intros x [-> | Hx] Hnot; [congruence | right; auto].
        -- intros Hz. f_equal. auto.
      * split; [lia | split; [| split]].
        -- simpl. rewrite Hfix.
           now rewrite (set_fields_fixed castBoolean castNumber ups c c' Hs).
        -- intros x [-> | Hx] Hnot; [congruence | right; auto].
        -- intros Hz. lia.
    + intros H. inversion H. subst db' matched modified. clear H.
      split; [assumption | split; [assumption | split; [| split]]].
      * simpl. now rewrite Hfix.
      * intros x [-> | Hx] Hnot; [now left | right; auto].
      * intros Hz. f_equal. auto.
Qed.

(** A bulk update that is accepted reports as [matchedCount] the number of
    documents whose id is listed and as [modifiedCount] at most that many;
    it adds and removes no document, leaves every document that is not
    listed as it was, never touches a name, description, parent, job count
    or creation date, and changes nothing when it reports zero modified.  A
    bulk update that is not accepted leaves the collection as it was. *)
Theorem bulk_update_effects :
  forall (castBoolean : Json -> option bool) (castNumber : Json -> option Z)
         (db : Categories) (b : BulkBody),
    (forall matched modified,
       fst (bulk_update castBoolean castNumber db b)
         = CatBulkUpdated matched modified ->
       exists ids,
         categoryIds b = Some ids
         /\ matched = Z.of_nat (List.length
                                  (filter (fun c => Js.includes ids (cat_id c)) db))
         /\ 0 <= modified <= matched
         /\ map fixed_fields (snd (bulk_update castBoolean castNumber db b))
            = map fixed_fields db
         /\ (forall c, In c db -> Js.includes ids (cat_id c) = false ->
               In c (snd (bulk_update castBoolean castNumber db b)))
         /\ (modified = 0 ->
             snd (bulk_update castBoolean castNumber db b) = db))
    /\
    ((forall matched modified,
        fst (bulk_update castBoolean castNumber db b)
          <> CatBulkUpdated matched modified) ->
     snd (bulk_update castBoolean castNumber db b) = db).
Proof.
  intros castBoolean castNumber db b. unfold bulk_update.
  destruct (bulk_validation b);
    [| split; [intros m n H; discriminate | reflexivity]].
  destruct (categoryIds b) as [ids |];
    [| split; [intros m n H; discriminate | reflexivity]].
  destruct (updates b) as [ups |];
    [| split; [intros m n H; discriminate | reflexivity]].
  destruct (0 <? Z.of_nat (List.length (invalidFields ups)));
    [split; [intros m n H; discriminate | reflexivity] |].
  destruct (updateMany castBoolean castNumber db ids ups)
    as [[[db' m] n] |] eqn:E;
    [| split; [intros m n H; discriminate | reflexivity]].
  simpl. split.
  - intros matched modified H. injection H as <- <-.
    exists ids. split; [reflexivity |].
    exact (updateMany_facts castBoolean castNumber ids ups db db' m n E).
  - intros H. exfalso. exact (H m n eq_refl).
Qed.

(** On the fixture: two ids listed, one of them unknown; only [c2] moves. *)
Lemma bulk_update_effects_witness :
  fst (bulk_update CatFixture.castBoolean CatFixture.castNumber
         CatFixture.categories
         (mkBulkBody (Some ["c2"; "unknown"])
                     (Some [("isFeatured", JBool true); ("sortOrder", JNum 1)])))
  = CatBulkUpdated 1 1
  /\ map fixed_fields
         (snd (bulk_update CatFixture.castBoolean CatFixture.castNumber
                 CatFixture.categories
                 (mkBulkBody (Some ["c2"; "unknown"])
                             (Some [("isFeatured", JBool true);
                                    ("sortOrder", JNum 1)]))))
     = map fixed_fields CatFixture.categories.
Proof.
  split; [reflexivity |].
  destruct (proj1 (bulk_update_effects CatFixture.castBoolean
                     CatFixture.castNumber CatFixture.categories
                     (mkBulkBody (Some ["c2"; "unknown"])
                                 (Some [("isFeatured", JBool true);
                                        ("sortOrder", JNum 1)])))
                  1 1 eq_refl) as (ids & _ & _ & _ & H & _).
  exact H.
Defined.

(** ** Slugs *)

Lemma slug_char_not_dash (c : ascii) : is_slug_char c = true -> is_dash c = false.
Proof.
  unfold is_dash. intros H. destruct (Ascii.eqb_spec c "-") as [-> | _];
    [discriminate | reflexivity].
Qed.

Lemma dash_runs_shaped (b : bool) (s : string) :
  slug_shaped b (dash_runs b s) = true.
Proof.
  revert b. induction s as [| c rest IH]; intros b; [reflexivity |].
  simpl. destruct (is_slug_char c) eqn:Hc.
  - simpl. now rewrite (slug_char_not_dash c Hc), Hc, IH.
  - destruct b; [apply IH |]. simpl. apply IH.
Qed.

Lemma strip_leading_shaped (s : string) :
  slug_shaped false s = true -> slug_shaped true (strip_leading_dash s) = true.
Proof.
  destruct s as [| c rest]; [reflexivity |]. simpl.
  destruct (is_dash c) eqn:Hd; simpl; [tauto |]. now rewrite Hd.
Qed.

Lemma strip_trailing_shaped (b : bool) (s : string) :
  slug_shaped b s = true -> slug_shaped b (strip_trailing_dash s) = true.
Proof.
  revert b. induction s as [| c rest IH]; intros b; [reflexivity |].
  destruct rest as [| c' rest'].
  - simpl. destruct (is_dash c) eqn:Hd; simpl; [reflexivity |].
    rewrite Hd. tauto.
  - intros H. change (strip_trailing_dash (String c (String c' rest')))
      with (String c (strip_trailing_dash (String c' rest'))).
    simpl slug_shaped in H |- *. destruct (is_dash c).
    + apply andb_true_iff in H. destruct H as [H1 H2].
      rewrite H1. simpl. now apply (IH true).
    + apply andb_true_iff in H. destruct H as [H1 H2].
      rewrite H1. simpl. now apply (IH false).
Qed.

Lemma strip_trailing_no_dash (b : bool) (s : string) :
  slug_shaped b s = true -> ends_with_dash (strip_trailing_dash s) = false.
Proof.
  revert b. induction s as [| c rest IH]; intros b; [reflexivity |].
  destruct rest as [| c' rest'].
  - simpl. destruct (is_dash c) eqn:Hd; simpl; [reflexivity | intros _; exact Hd].
  - intros H. change (strip_trailing_dash (String c (String c' rest')))
      with (String c (strip_trailing_dash (String c' rest'))).
    assert (Hrest : exists b', slug_shaped b' (String c' rest') = true
                               /\ (is_dash c = true -> b' = true)).
    { simpl slug_shaped in H. destruct (is_dash c).
      - apply andb_true_iff in H. exists true. tauto.
      - apply andb_true_iff in H. exists false. split; [tauto | discriminate]. }
    destruct Hrest as (b' & Hs & Hb').
    pose proof (IH b' Hs) as Hend.
    destruct (strip_trailing_dash (String c' rest')) as [| d rest2] eqn:E.
    + simpl. destruct (is_dash c) eqn:Hd; [| reflexivity].
      rewrite (Hb' eq_refl) in Hs. exfalso.
      destruct rest' as [| c2 rest3].
      * simpl in E, Hs. destruct (is_dash c'); simpl in Hs; discriminate.
      * simpl in E. discriminate.
    + exact Hend.
Qed.

Lemma slug_shaped_weaken (s : string) :
  slug_shaped true s = true -> slug_shaped false s = true.
Proof.
  destruct s as [| c rest]; [reflexivity |]. simpl.
  destruct (is_dash c); simpl; [discriminate | tauto].
Qed.

Lemma lower_slug_char (c : ascii) :
  is_slug_char c = true \/ is_dash c = true -> Js.lower_ascii c = c.
Proof.
  intros [H | H].
  - unfold is_slug_char in H. unfold Js.lower_ascii.
    destruct (Nat.leb_spec 65 (nat_of_ascii c)); [| reflexivity].
    destruct (Nat.leb_spec (nat_of_ascii c) 90); [| reflexivity].
    simpl. exfalso.
    apply orb_true_iff in H. rewrite !andb_true_iff, !Nat.leb_le in H. lia.
  - unfold is_dash in H. apply Ascii.eqb_eq in H. now subst.
Qed.

Lemma lower_shaped (b : bool) (s : string) :
  slug_shaped b s = true -> Js.toLowerCase s = s.
Proof.
  revert b. induction s as [| c rest IH]; intros b; [reflexivity |].
  simpl. destruct (is_dash c) eqn:Hd; intros H;
    apply andb_true_iff in H; destruct H as [H1 H2].
  - rewrite (lower_slug_char c (or_intror Hd)). f_equal. now apply (IH true).
  - rewrite (lower_slug_char c (or_introl H1)). f_equal. now apply (IH false).
Qed.

Lemma dash_runs_fixed (b : bool) (s : string) :
  slug_shaped b s = true -> dash_runs b s = s.
Proof.
  revert b. induction s as [| c rest IH]; intros b; [reflexivity |].
  simpl. destruct (is_dash c) eqn:Hd; intros H;
    apply andb_true_iff in H; destruct H as [H1 H2].
  - destruct (is_slug_char c) eqn:Hc.
    + rewrite (slug_char_not_dash c Hc) in Hd. discriminate.
    + destruct b; [discriminate |].
      unfold is_dash in Hd. apply Ascii.eqb_eq in Hd. subst c.
      f_equal. now apply IH.
  - rewrite H1. f_equal. now apply IH.
Qed.

Lemma strip_trailing_fixed (s : string) :
  ends_with_dash s = false -> strip_trailing_dash s = s.
Proof.
  induction s as [| c rest IH]; [reflexivity |].
  destruct rest as [| c' rest'].
  - simpl. intros ->. reflexivity.
  - intros H. change (strip_trailing_dash (String c (String c' rest')))
      with (String c (strip_trailing_dash (String c' rest'))).
    f_equal. apply IH. exact H.
Qed.

(** The slug the hook derives from a name has only [a-z0-9-], no dash
    first or last and no two dashes in a row, whatever the name; and a
    string of that shape is its own slug, so deriving twice changes
    nothing. *)
Theorem slugify_is_clean :
  forall name : string,
    clean_slug (slugify name) = true
    /\ slugify (slugify name) = slugify name
    /\ forall s, clean_slug s = true -> slugify s = s.
Proof.
  assert (Hclean : forall name, clean_slug (slugify name) = true).
  { intros name. unfold clean_slug, slugify, strip_dashes.
    set (d := dash_runs false (Js.toLowerCase name)).
    assert (H1 : slug_shaped true (strip_leading_dash d) = true)
      by (apply strip_leading_shaped, dash_runs_shaped).
    rewrite (strip_trailing_shaped true _ H1).
    now rewrite (strip_trailing_no_dash true _ H1). }
  assert (Hfix : forall s, clean_slug s = true -> slugify s = s).
  { intros s H. unfold clean_slug in H. apply andb_true_iff in H.
    destruct H as [Hs He]. apply negb_true_iff in He.
    unfold slugify, strip_dashes.
    rewrite (lower_shaped true s Hs).
    rewrite (dash_runs_fixed false s (slug_shaped_weaken s Hs)).
    assert (Hl : strip_leading_dash s = s).
    { destruct s as [| c rest]; [reflexivity |]. simpl in Hs |- *.
      destruct (is_dash c); [discriminate | reflexivity]. }
    rewrite Hl. now apply strip_trailing_fixed. }
  intros name. split; [apply Hclean | split; [| exact Hfix]].
  apply Hfix, Hclean.
Qed.

Example slugify_examples :
  slugify "Software Engineering" = "software-engineering"
  /\ slugify "  C++ / C#  " = "c-c"
  /\ slugify "Data & AI (2024)" = "data-ai-2024"
  /\ slugify "!!!" = ""
  /\ pre_save_slug (Some "given") "Software Engineering" = "given"
  /\ pre_save_slug None "Software Engineering" = "software-engineering".
Proof. repeat split; reflexivity. Qed.

(** ** Deleting a category *)

Lemma findCategory_In (db : Categories) (id : string) (c : Category) :
  findCategory db id = Some c -> In c db /\ cat_id c = id.
Proof.
  unfold findCategory. intros H. apply find_some in H.
  destruct H as [Hin Heq]. apply String.eqb_eq in Heq. auto.
Qed.

Lemma In_findByIdAndDelete (db : Categories) (id : string) (x : Category) :
  In x (findByIdAndDelete db id) -> In x db.
Proof.
  induction db as [| c rest IH]; simpl; [tauto |].
  destruct (String.eqb (cat_id c) id); simpl; intros H; [now right |].
  destruct H as [H | H]; auto.
Qed.

Lemma findByIdAndDelete_keeps (db : Categories) (id : string) (x : Category) :
  In x db -> cat_id x <> id -> In x (findByIdAndDelete db id).
Proof.
  induction db as [| c rest IH]; simpl; [tauto |].
  intros [-> | Hin] Hne.
  - apply String.eqb_neq in Hne. rewrite Hne. now left.
  - destruct (String.eqb (cat_id c) id); [assumption | right; auto].
Qed.

Lemma findByIdAndDelete_removes (db : Categories) (id : string) (x : Category) :
  NoDup (map cat_id db) -> In x (findByIdAndDelete db id) -> cat_id x <> id.
Proof.
  induction db as [| c rest IH]; simpl; [tauto |].
  intros Hnd. inversion Hnd as [| i l Hnotin Hnd']; subst.
  destruct (String.eqb (cat_id c) id) eqn:E.
  - apply String.eqb_eq in E. intros Hin Heq. apply Hnotin.
    rewrite E, <- Heq. now apply in_map.
  - intros [<- | Hin]; [now apply String.eqb_neq | auto].
Qed.

Lemma no_children_iff (db : Categories) (id : string) :
  (0 <? Z.of_nat (List.length (filter (has_parent id) db))) = false
  <-> forall x, In x db -> parentCategory x <> Some id.
Proof.
  rewrite Z.ltb_ge. split.
  - intros H x Hin Hp.
    assert (Hx : In x (filter (has_parent id) db)).
    { apply filter_In. split; [assumption |].
      unfold has_parent. rewrite Hp. apply String.eqb_refl. }
    destruct (filter (has_parent id) db); [contradiction | simpl in H; lia].
  - intros H. destruct (filter (has_parent id) db) as [| x l] eqn:E;
      [simpl; lia |].
    assert (Hx : In x (filter (has_parent id) db)) by (rewrite E; now left).
    apply filter_In in Hx. destruct Hx as [Hin Hp].
    unfold has_parent in Hp. destruct (parentCategory x) as [p |] eqn:Ep;
      [| discriminate].
    apply String.eqb_eq in Hp. subst p. exfalso. exact (H x Hin Ep).
Qed.

(** [DELETE /:id] deletes exactly when the category exists, no category
    names it as parent and it has no jobs; it then removes that category
    and nothing else, and in every other case it leaves the collection as
    it was. *)
Theorem delete_category_removes_only_leaves :
  forall (db : Categories) (id : string),
    NoDup (map cat_id db) ->
    (fst (delete_category db id) = Deleted
     <-> exists c, In c db /\ cat_id c = id /\ jobCount c <= 0
                   /\ forall x, In x db -> parentCategory x <> Some id)
    /\ (fst (delete_category db id) = Deleted ->
        forall x, In x (snd (delete_category db id))
                  <-> In x db /\ cat_id x <> id)
    /\ (fst (delete_category db id) <> Deleted ->
        snd (delete_category db id) = db).
Proof.
  intros db id Hnd. unfold delete_category.
  destruct (findCategory db id) as [c |] eqn:Hf.
  - destruct (findCategory_In db id c Hf) as [Hin Hid].
    assert (Hsame : forall c', In c' db -> cat_id c' = id -> c' = c).
    { intros c' Hin' Hid'. unfold findCategory in Hf.
      clear Hin. induction db as [| d rest IH]; [contradiction |].
      simpl in Hf, Hnd. inversion Hnd as [| i l Hnotin Hnd']; subst i l.
      destruct (String.eqb (cat_id d) (cat_id c')) eqn:E.
      - rewrite <- Hid' in Hf. rewrite E in Hf. injection Hf as <-.
        apply String.eqb_eq in E.
        destruct Hin' as [-> | Hin']; [reflexivity |].
        exfalso. apply Hnotin. rewrite E. now apply in_map.
      - rewrite <- Hid' in Hf. rewrite E in Hf. rewrite Hid' in Hf.
        destruct Hin' as [-> | Hin'];
          [rewrite String.eqb_refl in E; discriminate |].
        now apply IH. }
    destruct (0 <? Z.of_nat (List.length (filter (has_parent id) db))) eqn:Hsub.
    + simpl. split; [| split; [discriminate | reflexivity]].
      split; [discriminate |].
      intros (c' & _ & _ & _ & Hno).
      pose proof (proj2 (no_children_iff db id) Hno). congruence.
    + pose proof (proj1 (no_children_iff db id) Hsub) as Hno.
      destruct (Z.ltb_spec 0 (jobCount c)) as [Hjobs | Hjobs].
      * simpl. split; [| split; [discriminate | reflexivity]].
        split; [discriminate |].
        intros (c' & Hin' & Hid' & Hj & _).
        rewrite (Hsame c' Hin' Hid') in Hj. lia.
      * simpl. split; [| split].
        -- split; [| reflexivity]. intros _. exists c.
           split; [assumption | split; [assumption | split; [lia | exact Hno]]].
        -- intros _ x. split.
           ++ intros H. split; [now apply In_findByIdAndDelete in H |].
              now apply (findByIdAndDelete_removes db id x Hnd).
           ++ intros [H1 H2]. now apply findByIdAndDelete_keeps.
        -- intros H. now contradiction H.
  - simpl. split; [| split; [discriminate | reflexivity]].
    split; [discriminate |].
    intros (c & Hin & Hid & _). unfold findCategory in Hf.
    apply (find_none _ _ Hf) in Hin. rewrite Hid, String.eqb_refl in Hin.
    discriminate.
Qed.

(** On the fixture: a leaf goes; a parent, and a category with jobs, stay. *)
Lemma delete_category_removes_only_leaves_witness :
  NoDup (map cat_id TreeFixture.categories)
  /\ delete_category TreeFixture.categories "r"
     = (Deleted, [TreeFixture.tech; TreeFixture.web; TreeFixture.retired;
                  TreeFixture.legacy; TreeFixture.busy])
  /\ snd (delete_category TreeFixture.categories "t") = TreeFixture.categories
  /\ snd (delete_category TreeFixture.categories "b") = TreeFixture.categories.
Proof.
  assert (Hnd : NoDup (map cat_id TreeFixture.categories)).
  { simpl. repeat constructor; simpl; intuition discriminate. }
  split; [exact Hnd | split; [reflexivity | split]].
  - apply (proj2 (proj2 (delete_category_removes_only_leaves
                           TreeFixture.categories "t" Hnd))).
    discriminate.
  - apply (proj2 (proj2 (delete_category_removes_only_leaves
                           TreeFixture.categories "b" Hnd))).
    discriminate.
Defined.

(** [DELETE /:id] never leaves a category whose parent is gone: if every
    parent named in the collection exists before, every parent named in it
    exists after. *)
Theorem delete_category_keeps_parents :
  forall (db : Categories) (id : string),
    parents_exist db ->
    parents_exist (snd (delete_category db id)).
Proof.
  intros db id Hok. unfold delete_category.
  destruct (findCategory db id) as [c |]; [| exact Hok].
  destruct (0 <? Z.of_nat (List.length (filter (has_parent id) db))) eqn:Hsub;
    [exact Hok |].
  destruct (0 <? jobCount c); [exact Hok |].
  simpl. pose proof (proj1 (no_children_iff db id) Hsub) as Hno.
  intros x p Hx Hp. apply In_findByIdAndDelete in Hx.
  destruct (Hok x p Hx Hp) as (d & Hd & Hid).
  exists d. split; [| assumption].
  apply findByIdAndDelete_keeps; [assumption |].
  rewrite Hid. intros ->. exact (Hno x Hx Hp).
Qed.

(** On the fixture, after deleting the leaf [r]. *)
Lemma delete_category_keeps_parents_witness :
  parents_exist TreeFixture.categories
  /\ parents_exist (snd (delete_category TreeFixture.categories "r")).
Proof.
  assert (H : parents_exist TreeFixture.categories).
  { intros c p Hin Hp. simpl in Hin.
    destruct Hin as [<- | [<- | [<- | [<- | [<- | [<- | []]]]]]];
      simpl in Hp; try discriminate; injection Hp as <-.
    - exists TreeFixture.tech. simpl. auto.
    - exists TreeFixture.web. simpl. auto.
    - exists TreeFixture.retired. simpl. auto 6. }
  split; [exact H |].
  exact (delete_category_keeps_parents TreeFixture.categories "r" H).
Defined.

(** ** The category tree and the overview *)

Lemma insert_sorted_In (le : Category -> Category -> bool) (c x : Category)
  (l : list Category) :
  x = c \/ In x l -> In x (insert_sorted le c l).
Proof.
  induction l as [| d rest IH]; simpl.
  - intros [H | H]; auto.
  - destruct (le c d); simpl; intros [H | [H | H]]; auto.
Qed.

Lemma sort_by_In (le : Category -> Category -> bool) (x : Category)
  (l : list Category) :
  In x (sort_by le l) <-> In x l.
Proof.
  split; [apply In_sort_by |].
  induction l as [| c rest IH]; simpl; [tauto |].
  intros [H | H]; apply insert_sorted_In; auto.
Qed.

(** A category is in the tree exactly when it is active and either has no
    parent or names as parent an active category that has none: a category
    under an inactive parent, or two levels down, is nowhere in the tree. *)
Theorem category_tree_members :
  forall (db : Categories) (c : Category),
    in_tree c (getCategoryTree db)
    <-> In c db /\ cat_isActive c = true
        /\ (parentCategory c = None
            \/ exists r, In r db /\ cat_isActive r = true
                         /\ parentCategory r = None
                         /\ parentCategory c = Some (cat_id r)).
Proof.
  intros db c. unfold in_tree, getCategoryTree.
  set (cats := sort_by tree_order (filter cat_isActive db)).
  assert (Hcats : forall x, In x cats <-> In x db /\ cat_isActive x = true).
  { intros x. unfold cats. rewrite sort_by_In. apply filter_In. }
  assert (Hroot : forall x, is_root x = true <-> parentCategory x = None).
  { intros x. unfold is_root. destruct (parentCategory x); split; congruence. }
  rewrite map_map. cbn [fst]. rewrite map_id. split.
  - intros [H | (node & Hnode & Hc)].
    + apply filter_In in H. destruct H as [Hin Hr].
      apply Hcats in Hin. apply Hroot in Hr. tauto.
    + apply in_map_iff in Hnode. destruct Hnode as (r & <- & Hr).
      cbn [snd] in Hc. apply filter_In in Hc. destruct Hc as [Hin Hchild].
      apply filter_In in Hr. destruct Hr as [Hrin Hrroot].
      apply Hcats in Hin. apply Hcats in Hrin. apply Hroot in Hrroot.
      split; [tauto | split; [tauto | right]].
      exists r. unfold is_child_of in Hchild.
      destruct (parentCategory c) as [p |]; [| discriminate].
      apply String.eqb_eq in Hchild. subst p. tauto.
  - intros (Hin & Hact & [Hnone | (r & Hrin & Hract & Hrnone & Hp)]).
    + left. apply filter_In. split; [apply Hcats; tauto | now apply Hroot].
    + right. exists (r, filter (is_child_of r) cats). split.
      * apply in_map_iff. exists r. split; [reflexivity |].
        apply filter_In. split; [apply Hcats; tauto | now apply Hroot].
      * cbn [snd]. apply filter_In. split; [apply Hcats; tauto |].
        unfold is_child_of. rewrite Hp. apply String.eqb_refl.
Qed.

(** On the fixture: Web is under Tech; React (two levels down) and Legacy
    (under an inactive parent) are not in the tree. *)
Lemma category_tree_members_witness :
  in_tree TreeFixture.web (getCategoryTree TreeFixture.categories)
  /\ ~ in_tree TreeFixture.react (getCategoryTree TreeFixture.categories)
  /\ ~ in_tree TreeFixture.legacy (getCategoryTree TreeFixture.categories).
Proof.
  split; [| split].
  - apply (proj2 (category_tree_members TreeFixture.categories TreeFixture.web)).
    split; [simpl; auto | split; [reflexivity | right]].
    exists TreeFixture.tech. simpl. auto.
  - intros H.
    apply (proj1 (category_tree_members TreeFixture.categories TreeFixture.react))
      in H.
    destruct H as (_ & _ & [H | (r & Hr & _ & Hnone & Hp)]); [discriminate |].
    simpl in Hr.
    destruct Hr as [<- | [<- | [<- | [<- | [<- | [<- | []]]]]]];
      simpl in Hp, Hnone; discriminate.
  - intros H.
    apply (proj1 (category_tree_members TreeFixture.categories TreeFixture.legacy))
      in H.
    destruct H as (_ & _ & [H | (r & Hr & Hact & _ & Hp)]); [discriminate |].
    simpl in Hr.
    destruct Hr as [<- | [<- | [<- | [<- | [<- | [<- | []]]]]]];
      simpl in Hp, Hact; discriminate.
Defined.

Lemma count_where_split (db : Categories) (f : Category -> bool) :
  count_where db f + count_where db (fun c => negb (f c))
  = count_where db (fun _ => true).
Proof.
  unfold count_where. induction db as [| c rest IH]; [reflexivity |].
  simpl. destruct (f c); simpl List.length; lia.
Qed.

Lemma count_where_le (db : Categories) (f : Category -> bool) :
  0 <= count_where db f <= count_where db (fun _ => true).
Proof.
  pose proof (count_where_split db f). unfold count_where in *. lia.
Qed.

Lemma featured_sum_bounds (l : list Category) :
  0 <= fold_right (fun c acc => (if isFeatured c then 1 else 0) + acc) 0 l
    <= Z.of_nat (List.length l).
Proof.
  induction l as [| c rest IH]; simpl fold_right; simpl List.length; [lia |].
  destruct (isFeatured c); lia.
Qed.

Lemma limit_to_length {A : Type} (n : nat) (l : list A) :
  (0 < n)%nat -> (List.length (limit_to n l) <= n)%nat.
Proof.
  destruct n as [| n]; [lia |]. intros _. unfold limit_to.
  rewrite length_firstn. lia.
Qed.

Lemma limit_to_In {A : Type} (n : nat) (l : list A) (x : A) :
  In x (limit_to n l) -> In x l.
Proof.
  destruct n as [| n]; [tauto |]. unfold limit_to.
  intros H. apply (In_slice x (S n) 0 l). exact H.
Qed.

(** The figures of [GET /stats/overview] agree with each other: parents
    and subcategories add up to the total, the active count equals the
    total of the statistics, the featured count of the statistics lies
    between zero and that total, and the featured list holds at most six
    categories, each active and featured. *)
Theorem stats_overview_consistent :
  forall db : Categories,
    ov_parentCategories (so_overview (stats_overview db))
      + ov_subCategories (so_overview (stats_overview db))
    = ov_totalCategories (so_overview (stats_overview db))
    /\ ov_activeCategories (so_overview (stats_overview db))
       = st_totalCategories (so_stats (stats_overview db))
    /\ 0 <= st_featuredCategories (so_stats (stats_overview db))
         <= st_totalCategories (so_stats (stats_overview db))
    /\ ov_activeCategories (so_overview (stats_overview db))
       <= ov_totalCategories (so_overview (stats_overview db))
    /\ (List.length (so_featuredCategories (stats_overview db)) <= 6)%nat
    /\ forall c, In c (so_featuredCategories (stats_overview db)) ->
                 In c db /\ cat_isActive c = true /\ isFeatured c = true.
Proof.
  intros db. unfold stats_overview.
  cbn [so_overview so_stats so_featuredCategories ov_parentCategories
       ov_subCategories ov_totalCategories ov_activeCategories].
  split; [apply count_where_split | split; [| split; [| split; [| split]]]].
  - unfold getStats, count_where.
    destruct (filter cat_isActive db); reflexivity.
  - unfold getStats.
    destruct (filter cat_isActive db) as [| a rest] eqn:E;
      cbn [st_featuredCategories st_totalCategories]; [lia |].
    apply featured_sum_bounds.
  - apply count_where_le.
  - unfold getFeatured. apply limit_to_length. lia.
  - intros c H. unfold getFeatured in H.
    apply limit_to_In, sort_by_In, filter_In in H.
    destruct H as [Hin H]. apply andb_true_iff in H. tauto.
Qed.

(** ** Seeding the first admin *)

Lemma findOne_email_app (db : Admins) (a : Admin) (e : string) :
  findOne_email db e = None -> email a = email_setter e ->
  findOne_email (db ++ [a])%list e = Some a.
Proof.
  unfold findOne_email. intros Hnone Heq. induction db as [| b rest IH]; simpl.
  - now rewrite Heq, String.eqb_refl.
  - simpl in Hnone. destruct (String.eqb (email b) (email_setter e));
      [discriminate | now apply IH].
Qed.

(** Running the seeding script again changes nothing: a second run, with
    whatever id and salt, never creates an admin and leaves the collection
    as the first run left it. *)
Theorem createAdminUser_idempotent :
  forall (bcrypt_hash : string -> string -> string) (seed : AdminSeed)
         (oid1 salt1 oid2 salt2 : string) (db : Admins),
    snd (createAdminUser bcrypt_hash seed oid2 salt2
           (snd (createAdminUser bcrypt_hash seed oid1 salt1 db)))
    = snd (createAdminUser bcrypt_hash seed oid1 salt1 db)
    /\ forall a,
         fst (createAdminUser bcrypt_hash seed oid2 salt2
                (snd (createAdminUser bcrypt_hash seed oid1 salt1 db)))
         <> AdminCreated a.
Proof.
  intros bcrypt_hash seed oid1 salt1 oid2 salt2 db.
  destruct (createAdminUser bcrypt_hash seed oid1 salt1 db) as [r db1] eqn:E.
  cbn [snd]. unfold createAdminUser in E.
  assert (Hsecond : (exists a, findOne_email db1 (ADMIN_EMAIL seed) = Some a)
                    \/ (findOne_email db1 (ADMIN_EMAIL seed) = None
                        /\ negb (Js.truthy (email_setter (ADMIN_EMAIL seed)))
                           || (str_length (ADMIN_PASSWORD seed) <? 6) = true)).
  { destruct (findOne_email db (ADMIN_EMAIL seed)) as [a |] eqn:Hf.
    - injection E as _ <-. left. eauto.
    - destruct (negb (Js.truthy (email_setter (ADMIN_EMAIL seed)))
                || (str_length (ADMIN_PASSWORD seed) <? 6)) eqn:Hbad.
      + injection E as _ <-. right. auto.
      + injection E as _ <-. left. eexists.
        apply findOne_email_app; [exact Hf | reflexivity]. }
  unfold createAdminUser.
  destruct Hsecond as [(a & Ha) | (Hnone & Hbad)].
  - rewrite Ha. split; [reflexivity |]. intros b H. discriminate.
  - rewrite Hnone, Hbad. split; [reflexivity |]. intros b H. discriminate.
Qed.

(** The admin the script creates holds every permission, and the
    configured address and password log it in (the address passing the
    login validator, a hash comparing equal to the password it was made
    from). *)
Theorem seeded_admin_logs_in :
  forall (isEmail : string -> bool) (bcrypt_compare : string -> string -> bool)
         (bcrypt_hash : string -> string -> string) (config : Config)
         (seed : AdminSeed) (oid salt : string) (db db' : Admins)
         (created : Admin) (now : Z),
    isEmail (ADMIN_EMAIL seed) = true ->
    (forall pw, bcrypt_compare pw (bcrypt_hash pw salt) = true) ->
    createAdminUser bcrypt_hash seed oid salt db = (AdminCreated created, db') ->
    (forall permission, hasPermission created permission = true)
    /\ authenticated
         (login_response isEmail bcrypt_compare config db' now
            (ADMIN_EMAIL seed) (ADMIN_PASSWORD seed)).
Proof.
  intros isEmail bcrypt_compare bcrypt_hash config seed oid salt db db'
         created now Hmail Hlib. unfold createAdminUser.
  destruct (findOne_email db (ADMIN_EMAIL seed)) as [a |] eqn:Hf;
    [discriminate |].
  destruct (negb (Js.truthy (email_setter (ADMIN_EMAIL seed)))
            || (str_length (ADMIN_PASSWORD seed) <? 6)) eqn:Hbad;
    [discriminate |].
  intros H. injection H as <- <-. split.
  - intros permission. unfold hasPermission. cbn [role].
    simpl role_eqb. apply orb_true_r.
  - apply orb_false_iff in Hbad. destruct Hbad as [_ Hlen].
    apply Z.ltb_ge in Hlen.
    unfold login_response, login, login_validation, required, check.
    cbn [lb_email lb_password]. rewrite Hmail.
    assert (E : (6 <=? str_length (ADMIN_PASSWORD seed)) = true)
      by now apply Z.leb_le.
    rewrite E. cbn [app].
    match goal with
    | |- context [findOne_email (db ++ [?x])%list _] =>
        rewrite (findOne_email_app db x (ADMIN_EMAIL seed) Hf eq_refl)
    end.
    cbn [isActive negb password]. rewrite Hlib. simpl.
    unfold authenticated. eauto.
Qed.

(** With the defaults of the configuration, into the fixture's collection. *)
Lemma seeded_admin_logs_in_witness :
  fst (createAdminUser Fixture2.bcrypt_hash
         (mkAdminSeed "Owner@JobPortal.com" "owner-secret") "a9" "salt"
         Fixture.admins)
  = AdminCreated
      (mkAdmin "a9" "Admin" "User" "owner@jobportal.com"
               (Some "$2a$12$owner-secret") super_admin true all_permissions
               None None None None)
  /\ authenticated
       (login_response Fixture.isEmail Fixture.bcrypt_compare default_config
          (snd (createAdminUser Fixture2.bcrypt_hash
                  (mkAdminSeed "Owner@JobPortal.com" "owner-secret") "a9" "salt"
                  Fixture.admins))
          2000 "Owner@JobPortal.com" "owner-secret").
Proof.
  split; [reflexivity |].
  apply (proj2 (seeded_admin_logs_in Fixture.isEmail Fixture.bcrypt_compare
                  Fixture2.bcrypt_hash default_config
                  (mkAdminSeed "Owner@JobPortal.com" "owner-secret") "a9" "salt"
                  Fixture.admins _ _ 2000 eq_refl
                  (fun pw => String.eqb_refl (Fixture.bcrypt_hash pw))
                  eq_refl)).
Defined.

(** With the defaults, over the fixture, which already holds the default
    address: nothing is created. *)
Example createAdminUser_existing :
  createAdminUser Fixture2.bcrypt_hash default_seed "a9" "salt" Fixture.admins
  = (AdminExists Fixture.root, Fixture.admins).
Proof. reflexivity. Qed.

(** ** A submitted application *)





(** ** Two applications served together *)




